(** * todo_list_ui: the to-do list script (src/script.js)

    A shallow embedding of the script: the task store kept in
    [localStorage] under the key ["todoList"], the three operations
    [addItem], [deleteItem], [toggleComplete], and the categoriser and
    sorter of [renderTodoList].

    The script leans on four pieces of the browser platform, which are
    modelled here as far as the script uses them:
    - [JSON.parse] / [JSON.stringify]  (module [JSON]),
    - [Date] parsing and [setHours]    (module [JSDate]),
    - [Array.prototype.sort]           ([Array_sort]),
    - [localStorage]                   (a [gmap string string]).

    Strings are sequences of 8-bit code units ([string]).  Left out: the
    click listener that reads [data-index] off a row and calls
    [deleteItem] or [toggleComplete] (its index is a parameter here), the
    markup of a row (a row is a record of what the markup shows), the
    storage quota, and daylight saving. *)

From Stdlib Require Import ZArith NArith Ascii String List Permutation Sorted.
From Stdlib Require Import DecimalString DecimalNat.
From stdpp Require Import base option list strings gmap.

Local Open Scope string_scope.
Local Open Scope list_scope.
Local Open Scope Z_scope.

(** ** Completions

    A JavaScript call either returns or throws.  [Unmodelled] marks the
    border of the data model: the stored JSON text is well formed but is
    not an array of task records (or a string in it has a code unit
    beyond 8 bits), and the development says nothing about what the
    script does with such a value. *)

Inductive exn := SyntaxError | TypeError.

Inductive completion (A : Type) :=
| Normal (a : A)
| Throw (e : exn)
| Unmodelled.
Arguments Normal {A} a.
Arguments Throw {A} e.
Arguments Unmodelled {A}.

Definition cbind {A B} (c : completion A) (k : A -> completion B) : completion B :=
  match c with
  | Normal a => k a
  | Throw e => Throw e
  | Unmodelled => Unmodelled
  end.

#[global] Instance completion_bind : MBind completion :=
  fun A B k c => cbind c k.

(** ** The data model

    A task record as [addItem] builds it.  The categoriser tests
    [item.date] for presence, so the date may be missing ([undefined] in
    the script): [None]. *)

Record Task := mkTask {
  name : string;
  date : option string;
  priority : string;
  completed : bool;
}.

#[global] Instance Task_eq_dec : EqDecision Task.
Proof. solve_decision. Defined.

(** ** JSON text *)

Module JSON.

(** Syntax trees of JSON texts.  String values carry 16-bit code units
    since [\uXXXX] can name any of them; a number keeps its lexeme; the
    members of an object are kept in the order of the text. *)
#[local] Unset Elimination Schemes.
Inductive json :=
| JNull
| JBool (b : bool)
| JNum (lexeme : string)
| JStr (s : list N)
| JArr (elems : list json)
| JObj (members : list (list N * json)).
#[local] Set Elimination Schemes.

Inductive token :=
| TLBracket | TRBracket | TLBrace | TRBrace | TComma | TColon
| TTrue | TFalse | TNull
| TString (s : list N)
| TNumber (lexeme : string).

(** *** The grammar automaton (one token at a time) *)

Inductive frame :=
| InArr (acc : list json)
| InObj (acc : list (list N * json)) (key : list N).

Inductive pstate :=
| Value (first : bool) (stk : list frame)
| Key (first : bool) (acc : list (list N * json)) (stk : list frame)
| Colon (acc : list (list N * json)) (key : list N) (stk : list frame)
| SepArr (acc : list json) (stk : list frame)
| SepObj (acc : list (list N * json)) (stk : list frame)
| Done (v : json).

(** A value is finished: hand it to the enclosing container. *)
Definition complete (v : json) (stk : list frame) : pstate :=
  match stk with
  | [] => Done v
  | InArr acc :: stk' => SepArr (v :: acc) stk'
  | InObj acc key :: stk' => SepObj ((key, v) :: acc) stk'
  end.

Definition feed (p : pstate) (t : token) : option pstate :=
  match p with
  | Value first stk =>
      match t with
      | TLBracket => Some (Value true (InArr [] :: stk))
      | TRBracket =>
          match first, stk with
          | true, InArr [] :: stk' => Some (complete (JArr []) stk')
          | _, _ => None
          end
      | TLBrace => Some (Key true [] stk)
      | TTrue => Some (complete (JBool true) stk)
      | TFalse => Some (complete (JBool false) stk)
      | TNull => Some (complete JNull stk)
      | TString s => Some (complete (JStr s) stk)
      | TNumber n => Some (complete (JNum n) stk)
      | _ => None
      end
  | Key first acc stk =>
      match t with
      | TString k => Some (Colon acc k stk)
      | TRBrace => if first then Some (complete (JObj []) stk) else None
      | _ => None
      end
  | Colon acc k stk =>
      match t with
      | TColon => Some (Value false (InObj acc k :: stk))
      | _ => None
      end
  | SepArr acc stk =>
      match t with
      | TComma => Some (Value false (InArr acc :: stk))
      | TRBracket => Some (complete (JArr (rev acc)) stk)
      | _ => None
      end
  | SepObj acc stk =>
      match t with
      | TComma => Some (Key false acc stk)
      | TRBrace => Some (complete (JObj (rev acc)) stk)
      | _ => None
      end
  | Done _ => None
  end.

(** *** The scanner (one code unit at a time) *)

Inductive lex_mode :=
| LTop
| LStr (acc : list N)
| LEsc (acc : list N)
| LUni (acc : list N) (n : nat) (v : N)
| LNum (acc : string)
| LLit (rest : string) (t : token).

Definition is_ws (c : ascii) : bool :=
  match c with
  | " "%char | "009"%char | "010"%char | "013"%char => true
  | _ => false
  end.

Definition is_digit (c : ascii) : bool :=
  ((48 <=? N_of_ascii c) && (N_of_ascii c <=? 57))%N.

Definition is_num_char (c : ascii) : bool :=
  is_digit c ||
  match c with
  | "-"%char | "+"%char | "."%char | "e"%char | "E"%char => true
  | _ => false
  end.

Definition hex_digit (c : ascii) : option N :=
  let n := N_of_ascii c in
  if ((48 <=? n) && (n <=? 57))%N then Some (n - 48)%N
  else if ((97 <=? n) && (n <=? 102))%N then Some (n - 87)%N
  else if ((65 <=? n) && (n <=? 70))%N then Some (n - 55)%N
  else None.

Fixpoint skip_digits (s : string) : string :=
  match s with
  | String c r => if is_digit c then skip_digits r else s
  | EmptyString => EmptyString
  end.

(** A number lexeme: an optional minus sign; then a single zero, or a
    non-zero digit followed by digits; then optionally a dot and one or
    more digits; then optionally e or E, an optional sign and one or more
    digits. *)
Definition valid_exponent (s : string) : bool :=
  match s with
  | EmptyString => true
  | String e r =>
      match e with
      | "e"%char | "E"%char =>
          let r' := match r with
                    | String "+"%char r' | String "-"%char r' => r'
                    | _ => r
                    end in
          match r' with
          | String d r'' => is_digit d && bool_decide (skip_digits r'' = EmptyString)
          | EmptyString => false
          end
      | _ => false
      end
  end.

Definition valid_fraction (s : string) : bool :=
  match s with
  | String "."%char (String d r) => is_digit d && valid_exponent (skip_digits r)
  | String "."%char EmptyString => false
  | _ => valid_exponent s
  end.

Definition valid_number (s : string) : bool :=
  let s' := match s with String "-"%char r => r | _ => s end in
  match s' with
  | String "0"%char r => valid_fraction r
  | String d r => is_digit d && valid_fraction (skip_digits r)
  | EmptyString => false
  end.

Fixpoint string_rev_append (s acc : string) : string :=
  match s with
  | EmptyString => acc
  | String c r => string_rev_append r (String c acc)
  end.

Definition top (c : ascii) (p : pstate) : option (lex_mode * pstate) :=
  if is_ws c then Some (LTop, p)
  else match c with
       | "["%char => pair LTop <$> feed p TLBracket
       | "]"%char => pair LTop <$> feed p TRBracket
       | "{"%char => pair LTop <$> feed p TLBrace
       | "}"%char => pair LTop <$> feed p TRBrace
       | ","%char => pair LTop <$> feed p TComma
       | ":"%char => pair LTop <$> feed p TColon
       | "034"%char => Some (LStr [], p)
       | "t"%char => Some (LLit "rue" TTrue, p)
       | "f"%char => Some (LLit "alse" TFalse, p)
       | "n"%char => Some (LLit "ull" TNull, p)
       | "-"%char => Some (LNum (String c EmptyString), p)
       | _ => if is_digit c then Some (LNum (String c EmptyString), p) else None
       end.

(** The number scanned so far has ended: check it and hand it over. *)
Definition end_number (acc : string) (p : pstate) : option pstate :=
  let lexeme := string_rev_append acc EmptyString in
  if valid_number lexeme then feed p (TNumber lexeme) else None.

Definition step (st : lex_mode * pstate) (c : ascii) : option (lex_mode * pstate) :=
  let '(m, p) := st in
  match m with
  | LTop => top c p
  | LStr acc =>
      match c with
      | "034"%char => pair LTop <$> feed p (TString (rev acc))
      | "\"%char => Some (LEsc acc, p)
      | _ => if (N_of_ascii c <? 32)%N then None
             else Some (LStr (N_of_ascii c :: acc), p)
      end
  | LEsc acc =>
      match c with
      | "034"%char => Some (LStr (34%N :: acc), p)
      | "\"%char => Some (LStr (92%N :: acc), p)
      | "/"%char => Some (LStr (47%N :: acc), p)
      | "b"%char => Some (LStr (8%N :: acc), p)
      | "f"%char => Some (LStr (12%N :: acc), p)
      | "n"%char => Some (LStr (10%N :: acc), p)
      | "r"%char => Some (LStr (13%N :: acc), p)
      | "t"%char => Some (LStr (9%N :: acc), p)
      | "u"%char => Some (LUni acc 0 0%N, p)
      | _ => None
      end
  | LUni acc n v =>
      match hex_digit c with
      | Some d =>
          let v' := (v * 16 + d)%N in
          if (n =? 3)%nat then Some (LStr (v' :: acc), p)
          else Some (LUni acc (S n) v', p)
      | None => None
      end
  | LNum acc =>
      if is_num_char c then Some (LNum (String c acc), p)
      else match end_number acc p with
           | Some p' => top c p'
           | None => None
           end
  | LLit rest t =>
      match rest with
      | String e rest' =>
          if bool_decide (c = e) then
            match rest' with
            | EmptyString => pair LTop <$> feed p t
            | _ => Some (LLit rest' t, p)
            end
          else None
      | EmptyString => None
      end
  end.

Fixpoint run (st : lex_mode * pstate) (s : string) : option (lex_mode * pstate) :=
  match s with
  | EmptyString => Some st
  | String c r =>
      match step st c with
      | Some st' => run st' r
      | None => None
      end
  end.

(** End of the text: a number may still be pending; anything else that
    is unfinished is an error. *)
Definition finish (st : lex_mode * pstate) : option json :=
  let '(m, p) := st in
  match m with
  | LTop => match p with Done v => Some v | _ => None end
  | LNum acc =>
      match end_number acc p with
      | Some (Done v) => Some v
      | _ => None
      end
  | _ => None
  end.

(** [JSON.parse(text)]: the value, or a [SyntaxError]. *)
Definition parse (text : string) : completion json :=
  match run (LTop, Value false []) text with
  | Some st =>
      match finish st with
      | Some v => Normal v
      | None => Throw SyntaxError
      end
  | None => Throw SyntaxError
  end.


(** *** Writing

    [JSON.stringify] on the arrays the script saves: arrays of task
    objects whose properties were created in the order name, date,
    priority, completed.  A missing property is left out of the text.
    The functions build the text in front of a continuation [k]. *)

Definition hexit (n : N) : ascii :=
  if (n <? 10)%N then ascii_of_N (48 + n) else ascii_of_N (87 + n).

(** QuoteJSONString, one code unit. *)
Definition put_char (c : ascii) (k : string) : string :=
  match c with
  | "034"%char => String "\" (String "034" k)
  | "\"%char => String "\" (String "\" k)
  | "008"%char => String "\" (String "b" k)
  | "009"%char => String "\" (String "t" k)
  | "010"%char => String "\" (String "n" k)
  | "012"%char => String "\" (String "f" k)
  | "013"%char => String "\" (String "r" k)
  | _ =>
      let n := N_of_ascii c in
      if (n <? 32)%N then
        String "\" (String "u" (String "0" (String "0"
          (String (hexit (n / 16)) (String (hexit (n mod 16)) k)))))
      else String c k
  end.

Fixpoint put_chars (s : string) (k : string) : string :=
  match s with
  | EmptyString => k
  | String c r => put_char c (put_chars r k)
  end.

Definition quote (s : string) (k : string) : string :=
  String "034" (put_chars s (String "034" k)).

Definition put_bool (b : bool) (k : string) : string :=
  if b then "true" +:+ k else "false" +:+ k.

(** A property name and its colon. *)
Definition put_key (key : string) (k : string) : string :=
  quote key (String ":" k).

Definition put_date (d : option string) (k : string) : string :=
  match d with
  | Some d => String "," (put_key "date" (quote d k))
  | None => k
  end.

Definition put_task (t : Task) (k : string) : string :=
  String "{"
    (put_key "name" (quote (name t)
      (put_date (date t)
        (String "," (put_key "priority" (quote (priority t)
          (String "," (put_key "completed" (put_bool (completed t)
            (String "}" k)))))))))).

Fixpoint put_more (l : list Task) (k : string) : string :=
  match l with
  | [] => k
  | t :: l' => String "," (put_task t (put_more l' k))
  end.

Definition stringify (l : list Task) : string :=
  match l with
  | [] => "[]"
  | t :: l' => String "[" (put_task t (put_more l' "]"))
  end.

(** *** Task records as JSON values *)

Definition codes (s : string) : list N :=
  N_of_ascii <$> list_ascii_of_string s.

Fixpoint uncodes (l : list N) : option string :=
  match l with
  | [] => Some EmptyString
  | n :: l' =>
      if (n <? 256)%N then String (ascii_of_N n) <$> uncodes l' else None
  end.

Definition json_of_task (t : Task) : json :=
  JObj ((codes "name", JStr (codes (name t))) ::
        match date t with
        | Some d => [(codes "date", JStr (codes d))]
        | None => []
        end ++
        [(codes "priority", JStr (codes (priority t)));
         (codes "completed", JBool (completed t))]).

Definition json_of_todoList (l : list Task) : json :=
  JArr (json_of_task <$> l).

Definition key_is (k : list N) (s : string) : bool :=
  bool_decide (k = codes s).

(** The reading back: only objects with exactly the properties above, in
    that order, are task records of the data model. *)
Definition task_of_json (j : json) : option Task :=
  match j with
  | JObj [(k1, JStr n); (k2, JStr d); (k3, JStr p); (k4, JBool c)] =>
      if key_is k1 "name" && key_is k2 "date" && key_is k3 "priority"
         && key_is k4 "completed"
      then n' ← uncodes n; d' ← uncodes d; p' ← uncodes p;
           Some (mkTask n' (Some d') p' c)
      else None
  | JObj [(k1, JStr n); (k3, JStr p); (k4, JBool c)] =>
      if key_is k1 "name" && key_is k3 "priority" && key_is k4 "completed"
      then n' ← uncodes n; p' ← uncodes p; Some (mkTask n' None p' c)
      else None
  | _ => None
  end.

Definition todoList_of_json (j : json) : option (list Task) :=
  match j with
  | JArr elems => mapM task_of_json elems
  | _ => None
  end.

End JSON.

Import JSON.

(** ** Dates

    Time values are milliseconds since the epoch, [None] is [NaN] (an
    invalid date).  The environment supplies what the script cannot see:
    the clock, the zone of the browser (a fixed offset of local time from
    UTC; daylight saving is left out) and what the engine makes of a date
    string that is not a calendar date in the ISO form, which the
    language standard leaves to the engine. *)

Module JSDate.

Record Env := mkEnv {
  now : Z;
  LocalTZA : Z;
  legacy_parse : string -> option Z;
}.

Definition msPerDay : Z := 86400000.

Definition is_leap (y : Z) : bool :=
  ((y mod 4 =? 0) && negb (y mod 100 =? 0)) || (y mod 400 =? 0).

Definition days_in_month (y m : Z) : Z :=
  if m =? 2 then (if is_leap y then 29 else 28)
  else if (m =? 4) || (m =? 6) || (m =? 9) || (m =? 11) then 30
  else 31.

(** Days from 1970-01-01 to the civil date [y-m-d] (Gregorian). *)
Definition days_from_civil (y m d : Z) : Z :=
  let y' := if m <=? 2 then y - 1 else y in
  let era := y' / 400 in
  let yoe := y' - era * 400 in
  let mp := if m <=? 2 then m + 9 else m - 3 in
  let doy := (153 * mp + 2) / 5 + d - 1 in
  let doe := yoe * 365 + yoe / 4 - yoe / 100 + doy in
  era * 146097 + doe - 719468.

Definition digit (c : ascii) : option Z :=
  let n := Z.of_N (N_of_ascii c) in
  if (48 <=? n) && (n <=? 57) then Some (n - 48) else None.

(** The date-only form [YYYY-MM-DD] with a day that exists. *)
Definition iso_date (s : string) : option (Z * Z * Z) :=
  match s with
  | String y1 (String y2 (String y3 (String y4 (String "-"
      (String m1 (String m2 (String "-"
        (String d1 (String d2 EmptyString))))))))) =>
      a ← digit y1; b ← digit y2; c ← digit y3; e ← digit y4;
      f ← digit m1; g ← digit m2; h ← digit d1; i ← digit d2;
      let y := a * 1000 + b * 100 + c * 10 + e in
      let m := f * 10 + g in
      let d := h * 10 + i in
      if (1 <=? m) && (m <=? 12) && (1 <=? d) && (d <=? days_in_month y m)
      then Some (y, m, d) else None
  | _ => None
  end.

(** [Date.parse]: a date-only ISO string is midnight UTC of that day. *)
Definition parse (env : Env) (s : string) : option Z :=
  match iso_date s with
  | Some (y, m, d) => Some (days_from_civil y m d * msPerDay)
  | None => legacy_parse env s
  end.

Definition TimeClip (t : Z) : option Z :=
  if Z.abs t <=? 8640000000000000 then Some t else None.

(** [d.setHours(0, 0, 0, 0)]: midnight, local time, of the local day
    that the instant falls in. *)
Definition setHours0 (env : Env) (t : option Z) : option Z :=
  match t with
  | Some t =>
      let local := t + LocalTZA env in
      TimeClip ((local / msPerDay) * msPerDay - LocalTZA env)
  | None => None
  end.

(** [a.getTime() === b.getTime()]: [NaN] equals nothing. *)
Definition same_time (a b : option Z) : bool :=
  match a, b with
  | Some x, Some y => x =? y
  | _, _ => false
  end.

(** [a - b] on dates. *)
Definition minus (a b : option Z) : option Z :=
  match a, b with
  | Some x, Some y => Some (x - y)
  | _, _ => None
  end.

End JSDate.

Import JSDate.

(** ** Array.prototype.sort

    The standard fixes the result only for a consistent comparator: the
    stable sorted arrangement.  Any stable sort models it there; this one
    is insertion sort (the tail is sorted, then the head moves past the
    elements it comes after).  With any comparator the result holds the
    same elements.  A comparator result of [NaN] counts as 0.

    The script's comparators subtract two dates, so they are consistent
    when every compared date parses, and only then.  With a date that
    does not parse among them the order is the engine's own choice, and
    on longer arrays an engine's merge sort need not agree with the
    insertion sort here.  The statements below on the order of a section
    therefore assume that the stored dates parse; those on what a
    section holds need no such assumption.  The one evaluation below
    with an undated task among others in a sorted section has three
    elements whose neighbours all compare to [NaN], which leaves the
    array as it stands. *)

Section sort.
Context {A : Type} (cmp : A -> A -> option Z).

Definition comes_after (x y : A) : bool :=
  match cmp x y with
  | Some v => 0 <? v
  | None => false
  end.

Fixpoint sort_insert (x : A) (l : list A) : list A :=
  match l with
  | [] => [x]
  | y :: l' => if comes_after x y then y :: sort_insert x l' else x :: y :: l'
  end.

Fixpoint Array_sort (l : list A) : list A :=
  match l with
  | [] => []
  | x :: l' => sort_insert x (Array_sort l')
  end.

(** The comparator is consistent on the elements of [l]: it orders
    them as a transitive relation [R] does. *)
Definition consistent_on (R : A -> A -> Prop) (l : list A) : Prop :=
  (forall x y, x ∈ l -> y ∈ l ->
     if comes_after x y then R y x else R x y)
  /\ (forall x y z, x ∈ l -> y ∈ l -> z ∈ l -> R x y -> R y z -> R x z).
End sort.

(** ** The page: form fields, storage, alerts, the three containers *)

Record Row := mkRow {
  data_index : nat;
  ordinal : nat;
  task_name : string;
  task_date : string;
  priority_tag : string;
  completed_task : bool;
  toggle_button : bool;
  delete_button : bool;
}.

Inductive Content :=
| Blank
| NoTasks
| Rows (rows : list Row).

Record Page := mkPage {
  itemNameInput : string;
  itemDeadlineInput : string;
  itemPrioritySelect : string;
  localStorage : gmap string string;
  alerts : list string;
  todayTasksContainer : Content;
  futureTasksContainer : Content;
  completedTasksContainer : Content;
}.

(** ** The script *)

Definition as_todoList (j : json) : completion (list Task) :=
  match todoList_of_json j with
  | Some l => Normal l
  | None => Unmodelled
  end.

Definition loadTodoList (ls : gmap string string) : completion (list Task) :=
  match ls !! "todoList" with
  | Some todoJson =>
      if bool_decide (todoJson = "") then Normal []
      else j ← JSON.parse todoJson; as_todoList j
  | None => Normal []
  end.

Definition saveTodoList (ls : gmap string string) (todoList : list Task)
  : gmap string string :=
  <["todoList" := JSON.stringify todoList]> ls.

(** [String.prototype.split] on one separator character. *)
Fixpoint split (sep : ascii) (s : string) : list string :=
  match s with
  | EmptyString => [EmptyString]
  | String c r =>
      if bool_decide (c = sep) then EmptyString :: split sep r
      else match split sep r with
           | part :: parts => String c part :: parts
           | [] => [String c EmptyString]
           end
  end.

Definition formatTaskDate (dateString : option string) : string :=
  match dateString with
  | None | Some EmptyString => ""
  | Some s =>
      let parts := split "-" s in
      let part i := default "undefined" (parts !! i) in
      part 2%nat +:+ "/" +:+ part 1%nat +:+ "/" +:+ part 0%nat
  end.

Definition entry : Type := Task * nat.

Record Buckets := mkBuckets {
  todayTasks : list entry;
  futureTasks : list entry;
  completedTasks : list entry;
}.

(** [new Date(item.date)]; a missing date gives an invalid date. *)
Definition new_Date (env : Env) (d : option string) : option Z :=
  match d with
  | Some s => JSDate.parse env s
  | None => None
  end.

(** [item.date ? new Date(item.date) : null], then [setHours] if not
    null: the outer [None] is [null]. *)
Definition itemDate (env : Env) (item : Task) : option (option Z) :=
  match date item with
  | None | Some EmptyString => None
  | Some s => Some (setHours0 env (JSDate.parse env s))
  end.

(** The body of the [forEach] in [renderTodoList]. *)
Definition categorize (env : Env) (today : option Z) (b : Buckets) (e : entry)
  : Buckets :=
  let item := e.1 in
  if completed item then
    mkBuckets (todayTasks b) (futureTasks b) (completedTasks b ++ [e])
  else
    match itemDate env item with
    | Some d =>
        if same_time d today then
          mkBuckets (todayTasks b ++ [e]) (futureTasks b) (completedTasks b)
        else
          mkBuckets (todayTasks b) (futureTasks b ++ [e]) (completedTasks b)
    | None =>
        mkBuckets (todayTasks b) (futureTasks b ++ [e]) (completedTasks b)
    end.

Definition by_date_asc (env : Env) (a b : entry) : option Z :=
  minus (new_Date env (date a.1)) (new_Date env (date b.1)).

Definition by_date_desc (env : Env) (a b : entry) : option Z :=
  minus (new_Date env (date b.1)) (new_Date env (date a.1)).

(** The three arrays of [renderTodoList] after filtering and sorting. *)
Definition buckets (env : Env) (todoList : list Task) : Buckets :=
  let today := setHours0 env (Some (now env)) in
  let b := foldl (categorize env today) (mkBuckets [] [] [])
                 (imap (fun index item => (item, index)) todoList) in
  mkBuckets (Array_sort (by_date_asc env) (todayTasks b))
            (Array_sort (by_date_asc env) (futureTasks b))
            (Array_sort (by_date_desc env) (completedTasks b)).

(** A row as a record of what the template is filled with.  The script
    writes the name, the date and the priority into the template as
    they are and hands the text to [innerHTML]; the record describes the
    element that results when these texts hold no markup ([plain_task]
    below).  A text with a tag in it adds elements of its own to the
    row: the statements on a row's content and buttons assume plain
    texts.  The [data-index] attribute is set by [setAttribute] and is
    what this record says for any text. *)
Definition render_row (section_completed : bool) (e : entry) : Row :=
  let '(item, index) := e in
  {| data_index := index;
     ordinal := index + 1;
     task_name := name item;
     task_date := formatTaskDate (date item);
     priority_tag := priority item;
     completed_task := completed item;
     toggle_button := negb section_completed;
     delete_button := true |}.

Definition render_section (section_completed : bool) (l : list entry) : Content :=
  match l with
  | [] => NoTasks
  | _ => Rows (render_row section_completed <$> l)
  end.

(** The containers get their new content; nothing else on the page
    changes. *)
Definition show (pg : Page) (b : Buckets) : Page :=
  {| itemNameInput := itemNameInput pg;
     itemDeadlineInput := itemDeadlineInput pg;
     itemPrioritySelect := itemPrioritySelect pg;
     localStorage := localStorage pg;
     alerts := alerts pg;
     todayTasksContainer := render_section false (todayTasks b);
     futureTasksContainer := render_section false (futureTasks b);
     completedTasksContainer := render_section true (completedTasks b) |}.

Definition renderTodoList (env : Env) (pg : Page) : completion Page :=
  todoList ← loadTodoList (localStorage pg);
  Normal (show pg (buckets env todoList)).

(** [String.prototype.trim] (white space and line terminators among the
    8-bit code units). *)
Definition is_js_space (c : ascii) : bool :=
  match c with
  | "009"%char | "010"%char | "011"%char | "012"%char | "013"%char
  | " "%char | "160"%char => true
  | _ => false
  end.

Fixpoint trim_start (s : string) : string :=
  match s with
  | String c r => if is_js_space c then trim_start r else s
  | EmptyString => EmptyString
  end.

Fixpoint trim_end (s : string) : string :=
  match s with
  | String c r =>
      match trim_end r with
      | EmptyString => if is_js_space c then EmptyString else String c EmptyString
      | r' => String c r'
      end
  | EmptyString => EmptyString
  end.

Definition trim (s : string) : string := trim_end (trim_start s).

Definition validation_message : string :=
  "Please fill in all fields (Item Name, Deadline, and Priority).".

Definition falsy (s : string) : bool := bool_decide (s = "").

(** The record that [addItem] builds from the form. *)
Definition newItem (pg : Page) : Task :=
  {| name := trim (itemNameInput pg);
     date := Some (itemDeadlineInput pg);
     priority := itemPrioritySelect pg;
     completed := false |}.

Definition addItem (env : Env) (pg : Page) : completion Page :=
  let name := trim (itemNameInput pg) in
  let date := itemDeadlineInput pg in
  let priority := itemPrioritySelect pg in
  if falsy name || falsy date || falsy priority then
    Normal {| itemNameInput := itemNameInput pg;
              itemDeadlineInput := itemDeadlineInput pg;
              itemPrioritySelect := itemPrioritySelect pg;
              localStorage := localStorage pg;
              alerts := alerts pg ++ [validation_message];
              todayTasksContainer := todayTasksContainer pg;
              futureTasksContainer := futureTasksContainer pg;
              completedTasksContainer := completedTasksContainer pg |}
  else
    todoList ← loadTodoList (localStorage pg);
    renderTodoList env
      {| itemNameInput := "";
         itemDeadlineInput := "";
         itemPrioritySelect := "";
         localStorage :=
           saveTodoList (localStorage pg) (todoList ++ [newItem pg]);
         alerts := alerts pg;
         todayTasksContainer := todayTasksContainer pg;
         futureTasksContainer := futureTasksContainer pg;
         completedTasksContainer := completedTasksContainer pg |}.

Definition with_storage (pg : Page) (ls : gmap string string) : Page :=
  {| itemNameInput := itemNameInput pg;
     itemDeadlineInput := itemDeadlineInput pg;
     itemPrioritySelect := itemPrioritySelect pg;
     localStorage := ls;
     alerts := alerts pg;
     todayTasksContainer := todayTasksContainer pg;
     futureTasksContainer := futureTasksContainer pg;
     completedTasksContainer := completedTasksContainer pg |}.

(** [index >= 0 && index < todoList.length]; the index is an integer or
    [NaN] ([None]), as [parseInt] gives it. *)
Definition in_range (index : option Z) (todoList : list Task) : bool :=
  match index with
  | Some i => (0 <=? i) && (i <? Z.of_nat (length todoList))
  | None => false
  end.

Definition position (index : option Z) : nat :=
  match index with
  | Some i => Z.to_nat i
  | None => 0
  end.

Definition deleteItem (env : Env) (index : option Z) (pg : Page)
  : completion Page :=
  todoList ← loadTodoList (localStorage pg);
  if in_range index todoList then
    (* todoList.splice(index, 1) *)
    let todoList' := delete (position index) todoList in
    renderTodoList env
      (with_storage pg (saveTodoList (localStorage pg) todoList'))
  else Normal pg.

(** [item.completed = !item.completed] *)
Definition toggled (item : Task) : Task :=
  {| name := name item; date := date item; priority := priority item;
     completed := negb (completed item) |}.

Definition toggleComplete (env : Env) (index : option Z) (pg : Page)
  : completion Page :=
  todoList ← loadTodoList (localStorage pg);
  if in_range index todoList then
    match todoList !! position index with
    | Some item =>
        let todoList' := <[position index := toggled item]> todoList in
        renderTodoList env
          (with_storage pg (saveTodoList (localStorage pg) todoList'))
    | None => Throw TypeError
    end
  else Normal pg.

(** ** Vocabulary for the properties *)

Inductive Kind := Today | Future | Completed.

#[global] Instance Kind_eq_dec : EqDecision Kind.
Proof. solve_decision. Defined.

(** The branch of the [if] chain in the [forEach] that an item takes. *)
Definition kind (env : Env) (today : option Z) (item : Task) : Kind :=
  if completed item then Completed
  else match itemDate env item with
       | Some d => if same_time d today then Today else Future
       | None => Future
       end.

(** The entries that take branch [k]. *)
Definition of_kind (env : Env) (today : option Z) (k : Kind) (es : list entry)
  : list entry :=
  filter (fun e => kind env today e.1 = k) es.

(** [today] as [renderTodoList] computes it. *)
Definition today_midnight (env : Env) : option Z :=
  setHours0 env (Some (now env)).

(** The array that the [forEach] walks: each item with its index. *)
Definition entries (todoList : list Task) : list entry :=
  imap (fun index item => (item, index)) todoList.

(** Both dates are valid and the first is not later than the second. *)
Definition earlier_or_same (env : Env) (a b : entry) : Prop :=
  match new_Date env (date a.1), new_Date env (date b.1) with
  | Some x, Some y => x ≤ y
  | _, _ => False
  end.

Definition rows_of (c : Content) : list Row :=
  match c with
  | Rows rows => rows
  | _ => []
  end.

Definition all_rows (pg : Page) : list Row :=
  rows_of (todayTasksContainer pg) ++ rows_of (futureTasksContainer pg)
  ++ rows_of (completedTasksContainer pg).

(** The local calendar day (days since 1970-01-01) that an instant
    falls in. *)
Definition local_day (env : Env) (t : Z) : Z := (t + LocalTZA env) / msPerDay.

(** ** Sample data *)

(** Noon UTC on 2024-01-10, in a browser on UTC. *)
Definition env_utc : Env := mkEnv 1704888000000 0 (fun _ => None).

(** Nine in the morning UTC on 2024-01-01, in a browser on UTC. *)
Definition env_new_year : Env := mkEnv 1704099600000 0 (fun _ => None).

(** Noon local time on 2024-01-10, in a browser five hours behind UTC. *)
Definition env_west : Env := mkEnv 1704906000000 (-18000000) (fun _ => None).

Definition task (n d : string) (c : bool) : Task :=
  {| name := n; date := Some d; priority := "low"; completed := c |}.

(** A freshly opened page whose storage holds [l]. *)
Definition page_storing (l : list Task) : Page :=
  {| itemNameInput := ""; itemDeadlineInput := ""; itemPrioritySelect := "";
     localStorage := saveTodoList ∅ l; alerts := [];
     todayTasksContainer := Blank; futureTasksContainer := Blank;
     completedTasksContainer := Blank |}.

(** A page with the form filled in. *)
Definition page_with_form (n d p : string) (l : list Task) : Page :=
  {| itemNameInput := n; itemDeadlineInput := d; itemPrioritySelect := p;
     localStorage := saveTodoList ∅ l; alerts := [];
     todayTasksContainer := Blank; futureTasksContainer := Blank;
     completedTasksContainer := Blank |}.

(** ** The click listener

    [setAttribute('data-index', index)] stores the index as its decimal
    text and the listener reads it back with [parseInt]. *)

(** [String(index)] for an array index. *)
Definition Number_toString (n : nat) : string :=
  NilZero.string_of_uint (Nat.to_uint n).

Definition radix_digit (R : Z) (c : ascii) : option Z :=
  match JSON.hex_digit c with
  | Some d => if Z.of_N d <? R then Some (Z.of_N d) else None
  | None => None
  end.

(** The value of the longest prefix of digits; [None] when there is no
    digit at all. *)
Fixpoint scan_digits (R : Z) (s : string) (acc : option Z) : option Z :=
  match s with
  | String c r =>
      match radix_digit R c with
      | Some d => scan_digits R r (Some (default 0 acc * R + d))
      | None => acc
      end
  | EmptyString => acc
  end.

(** [parseInt(string)] with no radix: leading white space, a sign, an
    [0x] prefix, then digits; [None] is [NaN].  The value is the exact
    integer (a double would round it from 2^53 on, far beyond any array
    length), and minus zero is zero. *)
Definition parseInt (string : string) : option Z :=
  let s0 := trim_start string in
  let '(sign, s1) :=
    match s0 with
    | String "-"%char r => (-1, r)
    | String "+"%char r => (1, r)
    | _ => (1, s0)
    end in
  let '(R, s2) :=
    match s1 with
    | String "0"%char (String "x"%char r)
    | String "0"%char (String "X"%char r) => (16, r)
    | _ => (10, s1)
    end in
  match scan_digits R s2 None with
  | Some v => Some (sign * v)
  | None => None
  end.

(** [classList.contains] on the button that was hit. *)
Record Button := mkButton {
  delete_item : bool;
  toggle_complete : bool;
}.

(** A click: [e.target.closest('.action-btn')], and for that button
    [closest('.task-item')] with its [data-index] attribute ([None] when
    the row has none: [getAttribute] gives [null]). *)
Record Click := mkClick {
  action_btn : option Button;
  task_item : option (option string);
}.

(** [String(null)] is the text null. *)
Definition attribute_text (a : option string) : string :=
  default "null" a.

(** The listener on [document]. *)
Definition onClick (env : Env) (e : Click) (pg : Page) : completion Page :=
  match action_btn e with
  | None => Normal pg
  | Some target =>
      match task_item e with
      | None => Normal pg
      | Some attribute =>
          let index := parseInt (attribute_text attribute) in
          if delete_item target then deleteItem env index pg
          else if toggle_complete target then toggleComplete env index pg
          else Normal pg
      end
  end.

(** What a user can do: press the add button, or click somewhere. *)
Inductive UIEvent :=
| ClickAdd
| ClickAt (e : Click).

Definition handle (env : Env) (ev : UIEvent) (pg : Page) : completion Page :=
  match ev with
  | ClickAdd => addItem env pg
  | ClickAt e => onClick env e pg
  end.

(** The script from page load on: the first render, then the events in
    turn, each at its own time. *)
Fixpoint handle_all (evs : list (Env * UIEvent)) (pg : Page) : completion Page :=
  match evs with
  | [] => Normal pg
  | (env, ev) :: evs' => pg' ← handle env ev pg; handle_all evs' pg'
  end.

Definition start (env : Env) (evs : list (Env * UIEvent)) (pg : Page)
  : completion Page :=
  pg' ← renderTodoList env pg; handle_all evs pg'.

(** The clicks that a rendered row offers: on its own delete or toggle
    button, whose closest [.task-item] is the row itself.  A row whose
    texts hold markup can hold further buttons and rows; these clicks
    are the ones of the template. *)
Definition row_attribute (row : Row) : option (option string) :=
  Some (Some (Number_toString (data_index row))).

Definition click_delete (row : Row) : Click :=
  {| action_btn := Some {| delete_item := true; toggle_complete := false |};
     task_item := row_attribute row |}.

Definition click_toggle (row : Row) : Click :=
  {| action_btn := Some {| delete_item := false; toggle_complete := true |};
     task_item := row_attribute row |}.

(** ** More vocabulary *)

(** A record as the form makes them: name, date and priority not
    empty. *)
Definition filled_in (t : Task) : Prop :=
  name t ≠ "" ∧ (∃ d, date t = Some d ∧ d ≠ "") ∧ priority t ≠ "".

(** The containers show the stored list [l] as rendered in [env]. *)
Definition shows (env : Env) (l : list Task) (pg : Page) : Prop :=
  todayTasksContainer pg = render_section false (todayTasks (buckets env l))
  ∧ futureTasksContainer pg = render_section false (futureTasks (buckets env l))
  ∧ completedTasksContainer pg
    = render_section true (completedTasks (buckets env l)).

(** The text holds none of the characters that HTML reads as markup
    where the template puts it: [<] (a tag), [&] (a character
    reference) and the double quote (the end of the [class] attribute
    that holds the priority). *)
Fixpoint markup_free (s : string) : bool :=
  match s with
  | EmptyString => true
  | String c r =>
      negb (bool_decide (c = "<"%char))
      && negb (bool_decide (c = "&"%char))
      && negb (bool_decide (c = "034"%char))
      && markup_free r
  end.

(** The three texts of a task that the row template takes are plain. *)
Definition plain_task (t : Task) : Prop :=
  markup_free (name t) = true
  ∧ markup_free (formatTaskDate (date t)) = true
  ∧ markup_free (priority t) = true.

(** Every stored date parses: the comparators of the two sorts are then
    consistent. *)
Definition dates_parse (env : Env) (l : list Task) : Prop :=
  ∀ item, item ∈ l → is_Some (new_Date env (date item)).

(** [x] stands somewhere before [y] in [l]. *)
Definition before {A} (x y : A) (l : list A) : Prop :=
  [x; y] `sublist_of` l.

(** The first calendar date lies before the second. *)
Definition cal_before (a b : Z * Z * Z) : Prop :=
  let '(y1, m1, d1) := a in
  let '(y2, m2, d2) := b in
  y1 < y2 ∨ (y1 = y2 ∧ (m1 < m2 ∨ (m1 = m2 ∧ d1 < d2))).

(** The day count at the start of a year that begins in March (the
    part of [days_from_civil] that depends on the year only). *)
Definition year_start (y' : Z) : Z :=
  let era := y' / 400 in
  let yoe := y' - era * 400 in
  era * 146097 + yoe * 365 + yoe / 4 - yoe / 100.

(** The string begins, or ends, with white space. *)
Definition starts_with_space (s : string) : bool :=
  match s with
  | String c _ => is_js_space c
  | EmptyString => false
  end.

Fixpoint ends_with_space (s : string) : bool :=
  match s with
  | EmptyString => false
  | String c EmptyString => is_js_space c
  | String _ r => ends_with_space r
  end.

(** No dash in the string. *)
Fixpoint dash_free (s : string) : bool :=
  match s with
  | EmptyString => true
  | String c r => negb (bool_decide (c = "-"%char)) && dash_free r
  end.

(* ================================================================= *)
(** * Properties *)

(** ** The JSON writer and reader agree *)

Section json_round_trip.

Lemma run_put_char c acc p k :
run (LStr acc, p) (put_char c k) = run (LStr (N_of_ascii c :: acc), p) k.
Proof.
destruct c as [[] [] [] [] [] [] [] []]; reflexivity.
Qed.

Lemma run_put_chars s acc p k :
run (LStr acc, p) (put_chars s k) = run (LStr (rev (codes s) ++ acc), p) k.
Proof.
revert acc. induction s as [|c s IH]; intros acc; simpl.
- reflexivity.
- rewrite run_put_char, IH. unfold codes. simpl.
  rewrite <- app_assoc. reflexivity.
Qed.

Lemma run_quote s p k :
run (LTop, p) (quote s k) =
match feed p (TString (codes s)) with
| Some p' => run (LTop, p') k
| None => None
end.
Proof.
unfold quote.
change (run (LTop, p) (String "034" (put_chars s (String "034" k))))
  with (run (LStr [], p) (put_chars s (String "034" k))).
rewrite run_put_chars, app_nil_r.
simpl. rewrite rev_involutive.
destruct (feed p (TString (codes s))); reflexivity.
Qed.

Lemma run_put_key key first acc stk k :
run (LTop, Key first acc stk) (put_key key k) =
run (LTop, Value false (InObj acc (codes key) :: stk)) k.
Proof. unfold put_key. rewrite run_quote. reflexivity. Qed.

Lemma run_put_string s first stk k :
run (LTop, Value first stk) (quote s k) =
run (LTop, complete (JStr (codes s)) stk) k.
Proof. rewrite run_quote. reflexivity. Qed.

Lemma run_put_bool b first stk k :
run (LTop, Value first stk) (put_bool b k) =
run (LTop, complete (JBool b) stk) k.
Proof. destruct b; reflexivity. Qed.

Lemma run_open_object first stk k :
run (LTop, Value first stk) (String "{" k) = run (LTop, Key true [] stk) k.
Proof. reflexivity. Qed.

Lemma run_next_member acc stk k :
run (LTop, SepObj acc stk) (String "," k) = run (LTop, Key false acc stk) k.
Proof. reflexivity. Qed.

Lemma run_close_object acc stk k :
run (LTop, SepObj acc stk) (String "}" k) =
run (LTop, complete (JObj (rev acc)) stk) k.
Proof. reflexivity. Qed.

Lemma run_put_task t first stk k :
run (LTop, Value first stk) (put_task t k) =
run (LTop, complete (json_of_task t) stk) k.
Proof.
destruct t as [n d pr c]. unfold put_task, json_of_task, put_date.
cbn [name date priority completed].
rewrite run_open_object, run_put_key, run_put_string.
cbn [complete].
destruct d as [d|].
- rewrite run_next_member, run_put_key, run_put_string. cbn [complete].
  rewrite run_next_member, run_put_key, run_put_string. cbn [complete].
  rewrite run_next_member, run_put_key, run_put_bool. cbn [complete].
  rewrite run_close_object. reflexivity.
- rewrite run_next_member, run_put_key, run_put_string. cbn [complete].
  rewrite run_next_member, run_put_key, run_put_bool. cbn [complete].
  rewrite run_close_object. reflexivity.
Qed.

Lemma run_put_more l acc stk k :
run (LTop, SepArr acc stk) (put_more l k) =
run (LTop, SepArr (rev (json_of_task <$> l) ++ acc) stk) k.
Proof.
revert acc. induction l as [|t l IH]; intros acc; [reflexivity|].
cbn [put_more].
change (run (LTop, SepArr acc stk) (String "," (put_task t (put_more l k))))
  with (run (LTop, Value false (InArr acc :: stk)) (put_task t (put_more l k))).
rewrite run_put_task. cbn [complete]. rewrite IH.
rewrite fmap_cons. cbn [rev]. rewrite <- app_assoc. reflexivity.
Qed.

Lemma parse_stringify l :
JSON.parse (stringify l) = Normal (json_of_todoList l).
Proof.
unfold JSON.parse, stringify, json_of_todoList.
destruct l as [|t l]; [reflexivity|].
change (run (LTop, Value false []) (String "[" (put_task t (put_more l "]"))))
  with (run (LTop, Value true [InArr []]) (put_task t (put_more l "]"))).
rewrite run_put_task. cbn [complete]. rewrite run_put_more.
cbn [run step top is_ws feed fmap option_fmap option_map complete finish].
rewrite rev_app_distr, rev_involutive. reflexivity.
Qed.

Lemma uncodes_codes s : uncodes (codes s) = Some s.
Proof.
induction s as [|c s IH]; [reflexivity|].
unfold codes in *. cbn [list_ascii_of_string fmap list_fmap uncodes].
pose proof (N_ascii_bounded c) as Hc.
apply N.ltb_lt in Hc. rewrite Hc.
cbn [list_fmap] in IH. rewrite IH. cbn. rewrite ascii_N_embedding.
reflexivity.
Qed.

Lemma task_of_json_of_task t : task_of_json (json_of_task t) = Some t.
Proof.
destruct t as [n d pr c]. unfold json_of_task, task_of_json.
cbn [name date priority completed].
destruct d as [d|]; cbn [app];
  unfold key_is; rewrite !bool_decide_eq_true_2 by reflexivity;
  cbn [andb]; rewrite !uncodes_codes; reflexivity.
Qed.

Lemma todoList_of_json_of_todoList l :
todoList_of_json (json_of_todoList l) = Some l.
Proof.
unfold todoList_of_json, json_of_todoList.
induction l as [|t l IH]; [reflexivity|].
rewrite fmap_cons. cbn [mapM]. rewrite task_of_json_of_task.
cbn. rewrite IH. reflexivity.
Qed.

End json_round_trip.

(** The reader on some texts. *)
Example parse_nested :
  JSON.parse " [ 1.5e3 , {} , [ null , true ] ] "
  = Normal (JArr [JNum "1.5e3"; JObj []; JArr [JNull; JBool true]]).
Proof. reflexivity. Qed.

Example parse_escape :
  JSON.parse (String "034" ("aA\n" +:+ String "034" ""))
  = Normal (JStr [97; 65; 10]%N).
Proof. reflexivity. Qed.

Example parse_leading_zero : JSON.parse "[01]" = Throw SyntaxError.
Proof. reflexivity. Qed.

Example parse_trailing_comma : JSON.parse "[1,]" = Throw SyntaxError.
Proof. reflexivity. Qed.

Example parse_empty : JSON.parse "" = Throw SyntaxError.
Proof. reflexivity. Qed.

Example parse_unfinished : JSON.parse "tru" = Throw SyntaxError.
Proof. reflexivity. Qed.

Example parse_two_values : JSON.parse "1 2" = Throw SyntaxError.
Proof. reflexivity. Qed.

Example stringify_sample :
  stringify [mkTask "milk" (Some "2024-01-10") "low" false]
  = String "[" (String "{"
      (quote "name" (":" +:+ quote "milk" ("," +:+
       quote "date" (":" +:+ quote "2024-01-10" ("," +:+
       quote "priority" (":" +:+ quote "low" ("," +:+
       quote "completed" ":false}]")))))))).
Proof. reflexivity. Qed.

(** ** The task store *)

Example formatTaskDate_sample : formatTaskDate (Some "2024-01-10") = "10/01/2024".
Proof. reflexivity. Qed.

Example trim_sample : trim "  buy milk  " = "buy milk".
Proof. reflexivity. Qed.

Example parse_date_sample :
  JSDate.parse env_utc "2024-01-10" = Some 1704844800000
  ∧ JSDate.parse env_utc "1970-01-01" = Some 0
  ∧ JSDate.parse env_utc "2024-02-30" = None.
Proof. repeat split. Qed.

Lemma stringify_not_empty l : stringify l ≠ "".
Proof. destruct l; discriminate. Qed.

Lemma as_todoList_json_of_todoList l :
  as_todoList (json_of_todoList l) = Normal l.
Proof. unfold as_todoList. rewrite todoList_of_json_of_todoList. reflexivity. Qed.

Lemma loadTodoList_text ls text :
  ls !! "todoList" = Some text → text ≠ "" →
  loadTodoList ls = (j ← JSON.parse text; as_todoList j).
Proof.
  intros Hls Hne. unfold loadTodoList. rewrite Hls.
  rewrite bool_decide_eq_false_2 by exact Hne. reflexivity.
Qed.

Lemma loadTodoList_saveTodoList ls l :
  loadTodoList (saveTodoList ls l) = Normal l.
Proof.
  rewrite (loadTodoList_text _ (stringify l)).
  - rewrite parse_stringify. apply as_todoList_json_of_todoList.
  - unfold saveTodoList. apply lookup_insert_eq.
  - apply stringify_not_empty.
Qed.

Lemma renderTodoList_loaded env pg l :
  loadTodoList (localStorage pg) = Normal l →
  renderTodoList env pg = Normal (show pg (buckets env l)).
Proof. intros Hl. unfold renderTodoList. rewrite Hl. reflexivity. Qed.

Lemma renderTodoList_saved env pg ls l :
  renderTodoList env (with_storage pg (saveTodoList ls l)) =
  Normal (show (with_storage pg (saveTodoList ls l)) (buckets env l)).
Proof. apply renderTodoList_loaded, loadTodoList_saveTodoList. Qed.

Lemma in_range_spec index (l : list Task) :
  in_range index l = true ↔
  ∃ i, index = Some i ∧ 0 ≤ i < Z.of_nat (length l).
Proof.
  unfold in_range. destruct index as [i|].
  - rewrite andb_true_iff, Z.leb_le, Z.ltb_lt. split.
    + intros H. exists i. auto.
    + intros (j & [= <-] & H). exact H.
  - split; [discriminate|]. intros (j & [=] & _).
Qed.

Lemma in_range_position i (l : list Task) :
  0 ≤ i < Z.of_nat (length l) → (position (Some i) < length l)%nat.
Proof. cbn [position]. lia. Qed.

(** What [deleteItem] does at an index in range. *)
Lemma deleteItem_in_range env pg l i :
  loadTodoList (localStorage pg) = Normal l →
  0 ≤ i < Z.of_nat (length l) →
  deleteItem env (Some i) pg =
  Normal (show (with_storage pg (saveTodoList (localStorage pg)
                                   (delete (Z.to_nat i) l)))
               (buckets env (delete (Z.to_nat i) l))).
Proof.
  intros Hl Hi. unfold deleteItem. rewrite Hl. cbn [mbind completion_bind cbind].
  rewrite (proj2 (in_range_spec _ _)) by eauto.
  apply renderTodoList_saved.
Qed.

(** What [toggleComplete] does at an index in range. *)
Lemma toggleComplete_in_range env pg l i item :
  loadTodoList (localStorage pg) = Normal l →
  0 ≤ i → l !! Z.to_nat i = Some item →
  toggleComplete env (Some i) pg =
  Normal (show (with_storage pg (saveTodoList (localStorage pg)
                                   (<[Z.to_nat i := toggled item]> l)))
               (buckets env (<[Z.to_nat i := toggled item]> l))).
Proof.
  intros Hl Hi Hitem. unfold toggleComplete. rewrite Hl.
  cbn [mbind completion_bind cbind].
  pose proof (lookup_lt_Some _ _ _ Hitem) as Hlt.
  rewrite (proj2 (in_range_spec _ _)) by (exists i; split; [reflexivity|lia]).
  cbn [position]. rewrite Hitem. apply renderTodoList_saved.
Qed.

Lemma out_of_range index (l : list Task) :
  (∀ i, index = Some i → i < 0 ∨ Z.of_nat (length l) ≤ i) →
  in_range index l = false.
Proof.
  intros H. destruct (in_range index l) eqn:E; [|reflexivity].
  apply in_range_spec in E as (i & -> & Hi).
  destruct (H i eq_refl); lia.
Qed.

Lemma addItem_rejected env pg :
  trim (itemNameInput pg) = "" ∨ itemDeadlineInput pg = ""
  ∨ itemPrioritySelect pg = "" →
  addItem env pg =
  Normal {| itemNameInput := itemNameInput pg;
            itemDeadlineInput := itemDeadlineInput pg;
            itemPrioritySelect := itemPrioritySelect pg;
            localStorage := localStorage pg;
            alerts := alerts pg ++ [validation_message];
            todayTasksContainer := todayTasksContainer pg;
            futureTasksContainer := futureTasksContainer pg;
            completedTasksContainer := completedTasksContainer pg |}.
Proof.
  intros H. unfold addItem, falsy.
  destruct H as [-> | [-> | ->]]; cbn [bool_decide decide_rel];
    rewrite ?(bool_decide_eq_true_2 ("" = "")) by reflexivity;
    rewrite ?orb_true_r; reflexivity.
Qed.

Lemma addItem_accepted env pg l :
  trim (itemNameInput pg) ≠ "" → itemDeadlineInput pg ≠ "" →
  itemPrioritySelect pg ≠ "" →
  loadTodoList (localStorage pg) = Normal l →
  ∃ pg', addItem env pg = Normal pg'
    ∧ loadTodoList (localStorage pg') = Normal (l ++ [newItem pg])
    ∧ itemNameInput pg' = "" ∧ itemDeadlineInput pg' = ""
    ∧ itemPrioritySelect pg' = "" ∧ alerts pg' = alerts pg.
Proof.
  intros Hn Hd Hp Hl. unfold addItem, falsy.
  rewrite !bool_decide_eq_false_2 by assumption. cbn [orb].
  rewrite Hl. cbn [mbind completion_bind cbind].
  erewrite renderTodoList_loaded by (cbn [localStorage]; apply loadTodoList_saveTodoList).
  eexists. split; [reflexivity|]. cbn [localStorage show itemNameInput
    itemDeadlineInput itemPrioritySelect alerts].
  rewrite loadTodoList_saveTodoList. auto.
Qed.

(** Claim C5.  Saving a sequence of task records and loading it again
    gives back the same sequence, record by record and field by field,
    whatever the storage held before. *)
Theorem save_then_load (ls : gmap string string) (x : list Task) :
  loadTodoList (saveTodoList ls x) = Normal x.
Proof. apply loadTodoList_saveTodoList. Qed.

(** Claim C1 as the claim has it fails: stored text that is not JSON is
    not turned into an empty list; [JSON.parse] throws and
    [loadTodoList] lets the [SyntaxError] escape. *)
Lemma load_malformed_throws :
  JSON.parse "{oops" = Throw SyntaxError
  ∧ loadTodoList {["todoList" := "{oops"]} = Throw SyntaxError
  ∧ loadTodoList {["todoList" := "{oops"]} ≠ Normal [].
Proof. split; [|split]; [vm_compute; reflexivity ..|discriminate]. Qed.

(** Claim C1, amended.  [loadTodoList] returns the stored sequence; it
    returns the empty sequence when nothing is stored or the stored
    string is empty; and when the stored string is not empty and is not
    JSON, the [SyntaxError] of [JSON.parse] reaches the caller. *)
Theorem loadTodoList_cases (ls : gmap string string) :
  (∀ text l, ls !! "todoList" = Some text → text ≠ "" →
     JSON.parse text = Normal (json_of_todoList l) →
     loadTodoList ls = Normal l)
  ∧ (∀ l, ls !! "todoList" = Some (stringify l) → loadTodoList ls = Normal l)
  ∧ (ls !! "todoList" = None ∨ ls !! "todoList" = Some "" →
     loadTodoList ls = Normal [])
  ∧ (∀ text, ls !! "todoList" = Some text → text ≠ "" →
     JSON.parse text = Throw SyntaxError →
     loadTodoList ls = Throw SyntaxError).
Proof.
  split; [|split; [|split]].
  - intros text l Hls Hne Hparse.
    rewrite (loadTodoList_text _ _ Hls Hne), Hparse.
    apply as_todoList_json_of_todoList.
  - intros l Hls.
    rewrite (loadTodoList_text _ _ Hls (stringify_not_empty l)), parse_stringify.
    apply as_todoList_json_of_todoList.
  - intros [Hls | Hls]; unfold loadTodoList; rewrite Hls; reflexivity.
  - intros text Hls Hne Hparse.
    rewrite (loadTodoList_text _ _ Hls Hne), Hparse. reflexivity.
Qed.

Lemma loadTodoList_cases_witness :
  loadTodoList {["todoList" := "[ ]"]} = Normal []
  ∧ loadTodoList {["todoList" := stringify [task "milk" "2024-01-10" false]]}
    = Normal [task "milk" "2024-01-10" false]
  ∧ loadTodoList (∅ : gmap string string) = Normal []
  ∧ loadTodoList {["todoList" := "[1,"]} = Throw SyntaxError.
Proof.
  split; [|split; [|split]].
  - apply (proj1 (loadTodoList_cases _) "[ ]" []);
      [vm_compute; reflexivity | discriminate | vm_compute; reflexivity].
  - apply (proj1 (proj2 (loadTodoList_cases _))). vm_compute; reflexivity.
  - apply (proj1 (proj2 (proj2 (loadTodoList_cases _)))). left. reflexivity.
  - apply (proj2 (proj2 (proj2 (loadTodoList_cases _))) "[1,");
      [vm_compute; reflexivity | discriminate | vm_compute; reflexivity].
Defined.

(** Claim C7.  With a sequence of length [n] stored, [deleteItem] and
    [toggleComplete] at an index outside [0, n) (or at [NaN]) return
    normally and leave the page, the storage included, as it was. *)
Theorem out_of_range_is_ignored env pg (l : list Task) (index : option Z) :
  loadTodoList (localStorage pg) = Normal l →
  (∀ i, index = Some i → i < 0 ∨ Z.of_nat (length l) ≤ i) →
  deleteItem env index pg = Normal pg
  ∧ toggleComplete env index pg = Normal pg.
Proof.
  intros Hl Hout. unfold deleteItem, toggleComplete. rewrite Hl.
  cbn [mbind completion_bind cbind].
  rewrite (out_of_range _ _ Hout). split; reflexivity.
Qed.

Lemma out_of_range_is_ignored_witness :
  let pg := page_storing [task "milk" "2024-01-10" false] in
  (deleteItem env_utc (Some 1) pg = Normal pg
   ∧ toggleComplete env_utc (Some 1) pg = Normal pg)
  ∧ (deleteItem env_utc (Some (-1)) pg = Normal pg
     ∧ toggleComplete env_utc (Some (-1)) pg = Normal pg)
  ∧ (deleteItem env_utc None pg = Normal pg
     ∧ toggleComplete env_utc None pg = Normal pg).
Proof.
  intros pg. repeat apply conj.
  1,2: apply (out_of_range_is_ignored env_utc pg
                [task "milk" "2024-01-10" false] (Some 1));
    [vm_compute; reflexivity | intros i [= <-]; right; cbn; lia].
  1,2: apply (out_of_range_is_ignored env_utc pg
                [task "milk" "2024-01-10" false] (Some (-1)));
    [vm_compute; reflexivity | intros i [= <-]; left; lia].
  1,2: apply (out_of_range_is_ignored env_utc pg
                [task "milk" "2024-01-10" false] None);
    [vm_compute; reflexivity | intros i [=]].
Defined.

Lemma toggled_toggled item : toggled (toggled item) = item.
Proof. destruct item. unfold toggled. cbn. rewrite negb_involutive. reflexivity. Qed.

(** Claim C8.  Toggling twice at the same valid index brings the
    record's completed flag (and the whole stored sequence) back; in
    between the flag is the opposite one. *)
Theorem toggle_twice env pg (l : list Task) (i : Z) :
  loadTodoList (localStorage pg) = Normal l →
  0 ≤ i < Z.of_nat (length l) →
  ∃ pg1 pg2 item,
    l !! Z.to_nat i = Some item
    ∧ toggleComplete env (Some i) pg = Normal pg1
    ∧ loadTodoList (localStorage pg1) = Normal (<[Z.to_nat i := toggled item]> l)
    ∧ completed (toggled item) = negb (completed item)
    ∧ toggleComplete env (Some i) pg1 = Normal pg2
    ∧ loadTodoList (localStorage pg2) = Normal l.
Proof.
  intros Hl Hi.
  destruct (lookup_lt_is_Some_2 l (Z.to_nat i)) as [item Hitem]; [lia|].
  pose proof (toggleComplete_in_range env pg l i item Hl (proj1 Hi) Hitem) as H1.
  eexists _, _, item. split; [exact Hitem|]. split; [exact H1|].
  assert (Hl1 : loadTodoList (localStorage
            (show (with_storage pg (saveTodoList (localStorage pg)
                     (<[Z.to_nat i := toggled item]> l)))
                  (buckets env (<[Z.to_nat i := toggled item]> l))))
          = Normal (<[Z.to_nat i := toggled item]> l))
    by apply loadTodoList_saveTodoList.
  split; [exact Hl1|]. split; [reflexivity|].
  split.
  - apply (toggleComplete_in_range env _ _ i (toggled item) Hl1 (proj1 Hi)).
    apply list_lookup_insert_eq. lia.
  - cbn [localStorage show with_storage].
    rewrite loadTodoList_saveTodoList, list_insert_insert_eq, toggled_toggled.
    rewrite list_insert_id by exact Hitem. reflexivity.
Qed.

Lemma toggle_twice_witness :
  ∃ pg1 pg2 item,
    [task "milk" "2024-01-10" false; task "eggs" "2024-01-12" true] !! Z.to_nat 1
      = Some item
    ∧ toggleComplete env_utc (Some 1)
        (page_storing [task "milk" "2024-01-10" false;
                       task "eggs" "2024-01-12" true]) = Normal pg1
    ∧ loadTodoList (localStorage pg1)
      = Normal (<[Z.to_nat 1 := toggled item]>
                  [task "milk" "2024-01-10" false; task "eggs" "2024-01-12" true])
    ∧ completed (toggled item) = negb (completed item)
    ∧ toggleComplete env_utc (Some 1) pg1 = Normal pg2
    ∧ loadTodoList (localStorage pg2)
      = Normal [task "milk" "2024-01-10" false; task "eggs" "2024-01-12" true].
Proof.
  apply (toggle_twice env_utc
           (page_storing [task "milk" "2024-01-10" false;
                          task "eggs" "2024-01-12" true])).
  - vm_compute; reflexivity.
  - cbn; lia.
Defined.

(** Claim C6 as the claim has it fails: with a name field that holds
    only a space, none of the three fields is empty, and yet [addItem]
    reports the validation error, appends nothing and clears nothing. *)
Lemma blank_name_is_rejected :
  let pg := page_with_form " " "2024-01-10" "low" [] in
  itemNameInput pg ≠ "" ∧ itemDeadlineInput pg ≠ ""
  ∧ itemPrioritySelect pg ≠ ""
  ∧ ∃ pg', addItem env_utc pg = Normal pg'
      ∧ alerts pg' = [validation_message]
      ∧ loadTodoList (localStorage pg') = Normal []
      ∧ itemNameInput pg' = " ".
Proof.
  intros pg. split; [discriminate|]. split; [discriminate|].
  split; [discriminate|].
  eexists. split; [vm_compute; reflexivity|].
  split; [reflexivity|]. split; [vm_compute; reflexivity|reflexivity].
Qed.

(** Claim C6, amended.  If the name field is empty once surrounding
    white space is trimmed, or the date or the priority field is empty,
    [addItem] raises the alert and stops: storage and form fields stay as
    they were.  Otherwise it builds a record with the trimmed name and
    [completed = false], appends it to the stored sequence and clears the
    three form fields. *)
Theorem addItem_validates env pg :
  (trim (itemNameInput pg) = "" ∨ itemDeadlineInput pg = ""
   ∨ itemPrioritySelect pg = "" →
   ∃ pg', addItem env pg = Normal pg'
     ∧ alerts pg' = alerts pg ++ [validation_message]
     ∧ localStorage pg' = localStorage pg
     ∧ itemNameInput pg' = itemNameInput pg
     ∧ itemDeadlineInput pg' = itemDeadlineInput pg
     ∧ itemPrioritySelect pg' = itemPrioritySelect pg)
  ∧ (trim (itemNameInput pg) ≠ "" ∧ itemDeadlineInput pg ≠ ""
     ∧ itemPrioritySelect pg ≠ "" →
     ∀ l, loadTodoList (localStorage pg) = Normal l →
     ∃ pg', addItem env pg = Normal pg'
       ∧ loadTodoList (localStorage pg') =
         Normal (l ++ [{| name := trim (itemNameInput pg);
                          date := Some (itemDeadlineInput pg);
                          priority := itemPrioritySelect pg;
                          completed := false |}])
       ∧ itemNameInput pg' = "" ∧ itemDeadlineInput pg' = ""
       ∧ itemPrioritySelect pg' = ""
       ∧ alerts pg' = alerts pg).
Proof.
  split.
  - intros H. rewrite (addItem_rejected env pg H).
    eexists. split; [reflexivity|]. cbn. auto 6.
  - intros (Hn & Hd & Hp) l Hl.
    exact (addItem_accepted env pg l Hn Hd Hp Hl).
Qed.

Lemma addItem_validates_witness :
  (∃ pg', addItem env_utc (page_with_form "" "2024-01-10" "low" []) = Normal pg'
     ∧ alerts pg' = [] ++ [validation_message]
     ∧ localStorage pg' = saveTodoList ∅ []
     ∧ itemNameInput pg' = ""
     ∧ itemDeadlineInput pg' = "2024-01-10"
     ∧ itemPrioritySelect pg' = "low")
  ∧ (∃ pg', addItem env_utc
              (page_with_form " milk " "2024-01-10" "low"
                 [task "eggs" "2024-01-12" true]) = Normal pg'
       ∧ loadTodoList (localStorage pg') =
         Normal ([task "eggs" "2024-01-12" true]
                 ++ [{| name := "milk"; date := Some "2024-01-10";
                        priority := "low"; completed := false |}])
       ∧ itemNameInput pg' = "" ∧ itemDeadlineInput pg' = ""
       ∧ itemPrioritySelect pg' = ""
       ∧ alerts pg' = []).
Proof.
  split.
  - apply (proj1 (addItem_validates env_utc
                    (page_with_form "" "2024-01-10" "low" []))).
    left. reflexivity.
  - apply (proj2 (addItem_validates env_utc
                    (page_with_form " milk " "2024-01-10" "low"
                       [task "eggs" "2024-01-12" true]))).
    + repeat apply conj; discriminate.
    + vm_compute; reflexivity.
Defined.

(** Claim C2.  With a sequence [l] stored: an accepted [addItem] makes
    the stored sequence one longer, [deleteItem] at a valid index one
    shorter, [toggleComplete] at a valid index leaves its length; and in
    each case every record other than the targeted one is stored with all
    of its fields as before (after a deletion, one place further to the
    front when it stood behind the deleted record). *)
Theorem mutations_change_only_their_target env pg (l : list Task) :
  loadTodoList (localStorage pg) = Normal l →
  (trim (itemNameInput pg) ≠ "" ∧ itemDeadlineInput pg ≠ ""
   ∧ itemPrioritySelect pg ≠ "" →
   ∃ pg' l', addItem env pg = Normal pg'
     ∧ loadTodoList (localStorage pg') = Normal l'
     ∧ length l' = S (length l)
     ∧ ∀ j, (j < length l)%nat → l' !! j = l !! j)
  ∧ (∀ i, 0 ≤ i < Z.of_nat (length l) →
     ∃ pg' l', deleteItem env (Some i) pg = Normal pg'
       ∧ loadTodoList (localStorage pg') = Normal l'
       ∧ S (length l') = length l
       ∧ (∀ j, (j < Z.to_nat i)%nat → l' !! j = l !! j)
       ∧ (∀ j, (Z.to_nat i ≤ j)%nat → l' !! j = l !! S j))
  ∧ (∀ i, 0 ≤ i < Z.of_nat (length l) →
     ∃ pg' l' item, toggleComplete env (Some i) pg = Normal pg'
       ∧ loadTodoList (localStorage pg') = Normal l'
       ∧ length l' = length l
       ∧ l !! Z.to_nat i = Some item
       ∧ l' !! Z.to_nat i = Some (toggled item)
       ∧ (∀ j, j ≠ Z.to_nat i → l' !! j = l !! j)).
Proof.
  intros Hl. split; [|split].
  - intros (Hn & Hd & Hp).
    destruct (addItem_accepted env pg l Hn Hd Hp Hl) as (pg' & Ha & Hl' & _).
    exists pg', (l ++ [newItem pg]). split; [exact Ha|]. split; [exact Hl'|].
    split.
    + rewrite length_app. cbn. lia.
    + intros j Hj. apply lookup_app_l. exact Hj.
  - intros i Hi. eexists _, (delete (Z.to_nat i) l).
    split; [exact (deleteItem_in_range env pg l i Hl Hi)|].
    split; [apply loadTodoList_saveTodoList|].
    split; [|split].
    + pose proof (length_delete l (Z.to_nat i)) as Hlen.
      destruct (lookup_lt_is_Some_2 l (Z.to_nat i)) as [x Hx]; [lia|].
      specialize (Hlen (ex_intro _ x Hx)). lia.
    + intros j Hj. apply list_lookup_delete_lt. exact Hj.
    + intros j Hj. apply list_lookup_delete_ge. exact Hj.
  - intros i Hi.
    destruct (lookup_lt_is_Some_2 l (Z.to_nat i)) as [item Hitem]; [lia|].
    eexists _, (<[Z.to_nat i := toggled item]> l), item.
    split; [exact (toggleComplete_in_range env pg l i item Hl (proj1 Hi) Hitem)|].
    split; [apply loadTodoList_saveTodoList|].
    split; [apply length_insert|]. split; [exact Hitem|].
    split.
    + apply list_lookup_insert_eq. lia.
    + intros j Hj. apply list_lookup_insert_ne. congruence.
Qed.

(** ** Sorting *)

Section sort_facts.
Context {A : Type} (cmp : A → A → option Z).

Lemma sort_insert_Permutation x l : sort_insert cmp x l ≡ₚ x :: l.
Proof.
  induction l as [|y l IH]; cbn [sort_insert]; [reflexivity|].
  destruct (comes_after cmp x y); [|reflexivity].
  rewrite IH. apply perm_swap.
Qed.

Lemma Array_sort_Permutation l : Array_sort cmp l ≡ₚ l.
Proof.
  induction l as [|x l IH]; cbn [Array_sort]; [reflexivity|].
  rewrite sort_insert_Permutation, IH. reflexivity.
Qed.

Lemma elem_of_Array_sort x l : x ∈ Array_sort cmp l ↔ x ∈ l.
Proof. rewrite Array_sort_Permutation. reflexivity. Qed.

(** On a list whose elements the comparator orders consistently with
    a transitive relation [R], the result is sorted by [R]. *)
Context (R : A → A → Prop).

(** A stable sort: what is in order already stays as it is. *)
Lemma Array_sort_in_order l :
  StronglySorted (fun x y => comes_after cmp x y = false) l →
  Array_sort cmp l = l.
Proof.
  induction 1 as [|x l Hs IH Hx]; [reflexivity|].
  cbn [Array_sort]. rewrite IH. destruct l as [|y l]; [reflexivity|].
  cbn [sort_insert]. apply Forall_cons_1 in Hx as [-> _]. reflexivity.
Qed.

Lemma consistent_on_subseteq l l' :
  l' ⊆ l → consistent_on cmp R l → consistent_on cmp R l'.
Proof.
  intros Hsub [Hcmp Htrans]. split.
  - intros x y Hx Hy. apply Hcmp; apply Hsub; assumption.
  - intros x y z Hx Hy Hz. apply Htrans; apply Hsub; assumption.
Qed.

Lemma sort_insert_sorted x l :
  consistent_on cmp R (x :: l) →
  StronglySorted R l → StronglySorted R (sort_insert cmp x l).
Proof.
  intros Hc. induction l as [|y l IH]; intros Hs.
  - cbn. constructor; constructor.
  - cbn [sort_insert]. apply StronglySorted_inv in Hs as [Hs Hy].
    pose proof (proj1 Hc x y) as Hxy.
    destruct (comes_after cmp x y).
    + constructor.
      * apply IH; [|exact Hs].
        apply (consistent_on_subseteq (x :: y :: l)); [|exact Hc].
        intros a Ha. apply elem_of_cons in Ha as [->|Ha]; set_solver.
      * rewrite sort_insert_Permutation. constructor; [|exact Hy].
        apply Hxy; set_solver.
    + assert (Rxy : R x y) by (apply Hxy; set_solver).
      constructor; [constructor; assumption|].
      constructor; [exact Rxy|].
      rewrite Forall_forall in Hy |- *. intros z Hz.
      apply (proj2 Hc x y z); [set_solver ..| exact Rxy | apply Hy, Hz].
Qed.

Lemma Array_sort_sorted l :
  consistent_on cmp R l → StronglySorted R (Array_sort cmp l).
Proof.
  induction l as [|x l IH]; intros Hc; cbn [Array_sort].
  - constructor.
  - apply sort_insert_sorted.
    + apply (consistent_on_subseteq (x :: l)); [|exact Hc].
      intros a Ha. apply elem_of_cons in Ha as [->|Ha]; [left|right].
      exact (proj1 (elem_of_Array_sort a l) Ha).
    + apply IH. apply (consistent_on_subseteq (x :: l)); [|exact Hc].
      intros a Ha. right. exact Ha.
Qed.
End sort_facts.

(** ** The categoriser *)

Section categoriser.
Context (env : Env).

Lemma categorize_kind today b e :
  categorize env today b e =
  match kind env today e.1 with
  | Today => mkBuckets (todayTasks b ++ [e]) (futureTasks b) (completedTasks b)
  | Future => mkBuckets (todayTasks b) (futureTasks b ++ [e]) (completedTasks b)
  | Completed => mkBuckets (todayTasks b) (futureTasks b) (completedTasks b ++ [e])
  end.
Proof.
  unfold categorize, kind. destruct (completed e.1); [reflexivity|].
  destruct (itemDate env e.1) as [d|]; [|reflexivity].
  destruct (same_time d today); reflexivity.
Qed.

Lemma foldl_categorize today es b :
  foldl (categorize env today) b es =
  mkBuckets (todayTasks b ++ of_kind env today Today es)
            (futureTasks b ++ of_kind env today Future es)
            (completedTasks b ++ of_kind env today Completed es).
Proof.
  revert b. induction es as [|e es IH]; intros b.
  - unfold of_kind. cbn. rewrite !app_nil_r. destruct b; reflexivity.
  - cbn [foldl]. rewrite IH, categorize_kind. unfold of_kind.
    rewrite !filter_cons.
    destruct (kind env today e.1) eqn:Hk; cbn [todayTasks futureTasks completedTasks];
      repeat case_decide; try congruence; rewrite <- ?app_assoc; reflexivity.
Qed.

Lemma of_kind_partition today es :
  of_kind env today Today es ++ of_kind env today Future es
  ++ of_kind env today Completed es ≡ₚ es.
Proof.
  unfold of_kind. induction es as [|e es IH]; [reflexivity|].
  rewrite !filter_cons.
  destruct (kind env today e.1) eqn:Hk;
    repeat case_decide; try congruence; cbn [app].
  - rewrite IH. reflexivity.
  - rewrite <- Permutation_middle, IH. reflexivity.
  - rewrite app_assoc, <- Permutation_middle, <- app_assoc, IH. reflexivity.
Qed.

(** The three arrays are the items of each kind, sorted. *)
Lemma buckets_eq l :
  buckets env l =
  mkBuckets
    (Array_sort (by_date_asc env) (of_kind env (today_midnight env) Today (entries l)))
    (Array_sort (by_date_asc env) (of_kind env (today_midnight env) Future (entries l)))
    (Array_sort (by_date_desc env) (of_kind env (today_midnight env) Completed (entries l))).
Proof. unfold buckets. rewrite foldl_categorize. reflexivity. Qed.

Lemma elem_of_entries (l : list Task) item index :
  (item, index) ∈ entries l ↔ l !! index = Some item.
Proof.
  unfold entries. rewrite elem_of_lookup_imap. split.
  - intros (i & x & [= -> ->] & H). exact H.
  - intros H. exists index, item. auto.
Qed.

Lemma elem_of_todayTasks l e :
  e ∈ todayTasks (buckets env l) ↔
  l !! e.2 = Some e.1 ∧ kind env (today_midnight env) e.1 = Today.
Proof.
  rewrite buckets_eq. cbn [todayTasks]. rewrite elem_of_Array_sort.
  unfold of_kind. rewrite list_elem_of_filter. destruct e as [item index].
  rewrite elem_of_entries. tauto.
Qed.

Lemma elem_of_futureTasks l e :
  e ∈ futureTasks (buckets env l) ↔
  l !! e.2 = Some e.1 ∧ kind env (today_midnight env) e.1 = Future.
Proof.
  rewrite buckets_eq. cbn [futureTasks]. rewrite elem_of_Array_sort.
  unfold of_kind. rewrite list_elem_of_filter. destruct e as [item index].
  rewrite elem_of_entries. tauto.
Qed.

Lemma elem_of_completedTasks l e :
  e ∈ completedTasks (buckets env l) ↔
  l !! e.2 = Some e.1 ∧ kind env (today_midnight env) e.1 = Completed.
Proof.
  rewrite buckets_eq. cbn [completedTasks]. rewrite elem_of_Array_sort.
  unfold of_kind. rewrite list_elem_of_filter. destruct e as [item index].
  rewrite elem_of_entries. tauto.
Qed.

(** Every item of the array is in the three arrays exactly once. *)
Lemma buckets_partition l :
  todayTasks (buckets env l) ++ futureTasks (buckets env l)
  ++ completedTasks (buckets env l) ≡ₚ entries l.
Proof.
  rewrite buckets_eq. cbn [todayTasks futureTasks completedTasks].
  rewrite !Array_sort_Permutation. apply of_kind_partition.
Qed.

Lemma NoDup_entries (l : list Task) : NoDup (entries l).
Proof.
  apply NoDup_alt. intros i j [item index] Hi Hj.
  unfold entries in *. rewrite list_lookup_imap in Hi, Hj.
  destruct (l !! i) eqn:Ei; [|discriminate].
  destruct (l !! j) eqn:Ej; [|discriminate].
  cbn in Hi, Hj. congruence.
Qed.
End categoriser.

(** ** Dates and the local day *)

Section local_days.
Context (env : Env).

Lemma setHours0_local_day t :
  setHours0 env (Some t) =
  TimeClip (local_day env t * msPerDay - LocalTZA env).
Proof. reflexivity. Qed.

Lemma same_time_refl x : same_time (Some x) (Some x) = true.
Proof. cbn. apply Z.eqb_refl. Qed.

Lemma TimeClip_Some t u : TimeClip t = Some u → u = t.
Proof. unfold TimeClip. case_match; congruence. Qed.

(** Two instants set to local midnight are the same instant exactly
    when they fall in the same local day. *)
Lemma same_time_setHours0 a b :
  same_time (setHours0 env (Some a)) (setHours0 env (Some b)) = true →
  local_day env a = local_day env b.
Proof.
  rewrite !setHours0_local_day.
  destruct (TimeClip _) as [x|] eqn:Ex; [|discriminate].
  destruct (TimeClip (local_day env b * _ - _)) as [y|] eqn:Ey; [|discriminate].
  apply TimeClip_Some in Ex, Ey. cbn. intros H%Z.eqb_eq.
  unfold msPerDay in *. lia.
Qed.

(** Midnight UTC of day [D], seen from a zone east of (or on) UTC, is
    in local day [D]; seen from a zone west of UTC it is in local day
    [D - 1]. *)
Lemma local_day_utc_midnight_east D :
  0 ≤ LocalTZA env < msPerDay → local_day env (D * msPerDay) = D.
Proof.
  intros H. unfold local_day. symmetry.
  apply (Z.div_unique _ _ D (LocalTZA env)); unfold msPerDay in *; lia.
Qed.

Lemma local_day_utc_midnight_west D :
  - msPerDay ≤ LocalTZA env < 0 → local_day env (D * msPerDay) = D - 1.
Proof.
  intros H. unfold local_day. symmetry.
  apply (Z.div_unique _ _ (D - 1) (LocalTZA env + msPerDay));
    unfold msPerDay in *; lia.
Qed.

Lemma iso_date_not_empty s ymd : iso_date s = Some ymd → s ≠ "".
Proof. intros H ->. discriminate. Qed.

Lemma itemDate_iso item s y m d :
  date item = Some s → iso_date s = Some (y, m, d) →
  itemDate env item =
  Some (TimeClip (local_day env (days_from_civil y m d * msPerDay)
                  * msPerDay - LocalTZA env)).
Proof.
  intros Hd Hiso. unfold itemDate. rewrite Hd.
  destruct s as [|c s]; [discriminate|].
  unfold JSDate.parse. rewrite Hiso. reflexivity.
Qed.

(** East of UTC (or on it) the categoriser compares calendar days:
    an open task with an ISO date goes to [today] exactly when that
    date is the current local day. *)
Lemma dated_task_east item s y m d :
  0 ≤ LocalTZA env < msPerDay →
  is_Some (today_midnight env) →
  completed item = false →
  date item = Some s → iso_date s = Some (y, m, d) →
  kind env (today_midnight env) item =
  if bool_decide (days_from_civil y m d = local_day env (now env))
  then Today else Future.
Proof.
  intros Htz [t Ht] Hc Hd Hiso. unfold kind.
  rewrite Hc, (itemDate_iso _ _ _ _ _ Hd Hiso).
  rewrite local_day_utc_midnight_east by exact Htz.
  unfold today_midnight in *. rewrite setHours0_local_day in Ht |- *.
  case_bool_decide as Hday.
  - rewrite Hday, Ht, same_time_refl. reflexivity.
  - rewrite Ht.
    destruct (TimeClip (days_from_civil y m d * msPerDay - LocalTZA env))
      as [x|] eqn:Ex; [|reflexivity].
    apply TimeClip_Some in Ex, Ht. cbn.
    destruct (Z.eqb_spec x t); [|reflexivity].
    exfalso. apply Hday. unfold msPerDay in *. lia.
Qed.

(** West of UTC it compares the day before the task's date: the task
    dated the current local day goes to [future], and so does every
    open task whose date is not the day after the current local day. *)
Lemma dated_task_west item s y m d :
  - msPerDay ≤ LocalTZA env < 0 →
  is_Some (today_midnight env) →
  completed item = false →
  date item = Some s → iso_date s = Some (y, m, d) →
  kind env (today_midnight env) item =
  if bool_decide (days_from_civil y m d - 1 = local_day env (now env))
  then Today else Future.
Proof.
  intros Htz [t Ht] Hc Hd Hiso. unfold kind.
  rewrite Hc, (itemDate_iso _ _ _ _ _ Hd Hiso).
  rewrite local_day_utc_midnight_west by exact Htz.
  unfold today_midnight in *. rewrite setHours0_local_day in Ht |- *.
  case_bool_decide as Hday.
  - rewrite Hday, Ht, same_time_refl. reflexivity.
  - rewrite Ht.
    destruct (TimeClip ((days_from_civil y m d - 1) * msPerDay - LocalTZA env))
      as [x|] eqn:Ex; [|reflexivity].
    apply TimeClip_Some in Ex, Ht. cbn.
    destruct (Z.eqb_spec x t); [|reflexivity].
    exfalso. apply Hday. unfold msPerDay in *. lia.
Qed.

(** The arrays do not depend on the time of day at which the page is
    rendered, only on the local day. *)
Lemma buckets_time_of_day now' l :
  local_day env now' = local_day env (now env) →
  buckets (mkEnv now' (LocalTZA env) (legacy_parse env)) l = buckets env l.
Proof.
  intros Hday. unfold buckets.
  change (setHours0 (mkEnv now' (LocalTZA env) (legacy_parse env))
            (Some (now (mkEnv now' (LocalTZA env) (legacy_parse env)))))
    with (TimeClip (local_day env now' * msPerDay - LocalTZA env)).
  rewrite Hday. reflexivity.
Qed.
End local_days.

(** ** What is rendered *)

Lemma rows_of_render_section c l :
  rows_of (render_section c l) = render_row c <$> l.
Proof. destruct l; reflexivity. Qed.

Lemma all_rows_show pg b :
  all_rows (show pg b) =
  (render_row false <$> todayTasks b) ++ (render_row false <$> futureTasks b)
  ++ (render_row true <$> completedTasks b).
Proof.
  unfold all_rows, show.
  cbn [todayTasksContainer futureTasksContainer completedTasksContainer].
  rewrite !rows_of_render_section. reflexivity.
Qed.

Lemma data_index_render_row c (l : list entry) :
  data_index <$> (render_row c <$> l) = snd <$> l.
Proof.
  rewrite <- list_fmap_compose. apply list_fmap_ext.
  intros _ [item index] _. reflexivity.
Qed.

Lemma snd_imap_from (l : list Task) (k : nat) :
  snd <$> imap (fun index item => (item, (k + index)%nat)) l = seq k (length l).
Proof.
  revert k. induction l as [|x l IH]; intros k; [reflexivity|].
  rewrite imap_cons. cbn [fmap list_fmap snd length seq].
  rewrite Nat.add_0_r. f_equal. rewrite <- (IH (S k)).
  f_equal. apply imap_ext. intros i y _. cbn. f_equal. lia.
Qed.

Lemma snd_entries (l : list Task) : snd <$> entries l = seq 0 (length l).
Proof. exact (snd_imap_from l 0). Qed.

(** The rows on the page carry, between them, each index of the stored
    array once. *)
Lemma data_index_all_rows env pg l :
  data_index <$> all_rows (show pg (buckets env l)) ≡ₚ seq 0 (length l).
Proof.
  rewrite all_rows_show, !fmap_app, !data_index_render_row.
  rewrite <- !fmap_app, buckets_partition. rewrite snd_entries. reflexivity.
Qed.

Lemma elem_of_all_rows env pg l row :
  row ∈ all_rows (show pg (buckets env l)) →
  ∃ item, l !! data_index row = Some item
    ∧ task_name row = name item
    ∧ ordinal row = (data_index row + 1)%nat.
Proof.
  rewrite all_rows_show, !elem_of_app, !list_elem_of_fmap.
  intros [(e & -> & He) | [(e & -> & He) | (e & -> & He)]].
  - apply elem_of_todayTasks in He as [He _].
    destruct e as [item index]. exists item. auto.
  - apply elem_of_futureTasks in He as [He _].
    destruct e as [item index]. exists item. auto.
  - apply elem_of_completedTasks in He as [He _].
    destruct e as [item index]. exists item. auto.
Qed.

(** Claim C9.  Deleting at a valid index [i] of a stored sequence of
    length [n] leaves the sequence without its [i]-th record: length
    [n - 1], the other records in their order, each at the index it now
    has; and the page is rendered from that sequence, every row carrying
    the new index of its record, each index once. *)
Theorem deleteItem_renumbers env pg (l : list Task) (i : Z) :
  loadTodoList (localStorage pg) = Normal l →
  0 ≤ i < Z.of_nat (length l) →
  ∃ pg' l',
    deleteItem env (Some i) pg = Normal pg'
    ∧ loadTodoList (localStorage pg') = Normal l'
    ∧ l' = take (Z.to_nat i) l ++ drop (S (Z.to_nat i)) l
    ∧ Z.of_nat (length l') = Z.of_nat (length l) - 1
    ∧ (∀ j, (j < Z.to_nat i)%nat → l' !! j = l !! j)
    ∧ (∀ j, (Z.to_nat i ≤ j)%nat → l' !! j = l !! S j)
    ∧ data_index <$> all_rows pg' ≡ₚ seq 0 (length l')
    ∧ (∀ row, row ∈ all_rows pg' →
         ∃ item, l' !! data_index row = Some item
           ∧ task_name row = name item
           ∧ ordinal row = (data_index row + 1)%nat).
Proof.
  intros Hl Hi. eexists _, (delete (Z.to_nat i) l).
  split; [exact (deleteItem_in_range env pg l i Hl Hi)|].
  split; [apply loadTodoList_saveTodoList|].
  split; [apply delete_take_drop|].
  split.
  { destruct (lookup_lt_is_Some_2 l (Z.to_nat i)) as [x Hx]; [lia|].
    pose proof (length_delete l (Z.to_nat i) (ex_intro _ x Hx)). lia. }
  split; [intros j Hj; apply list_lookup_delete_lt, Hj|].
  split; [intros j Hj; apply list_lookup_delete_ge, Hj|].
  split; [apply data_index_all_rows|].
  intros row. apply elem_of_all_rows.
Qed.

(** ** Categories *)

(** Every item of the stored array is in exactly one of the three
    arrays, the one its branch of the [if] chain names. *)
Lemma one_bucket_each env (l : list Task) index item :
  l !! index = Some item →
  match kind env (today_midnight env) item with
  | Today =>
      ((item, index) ∈ todayTasks (buckets env l))
      ∧ ((item, index) ∉ futureTasks (buckets env l))
      ∧ ((item, index) ∉ completedTasks (buckets env l))
  | Future =>
      ((item, index) ∉ todayTasks (buckets env l))
      ∧ ((item, index) ∈ futureTasks (buckets env l))
      ∧ ((item, index) ∉ completedTasks (buckets env l))
  | Completed =>
      ((item, index) ∉ todayTasks (buckets env l))
      ∧ ((item, index) ∉ futureTasks (buckets env l))
      ∧ ((item, index) ∈ completedTasks (buckets env l))
  end.
Proof.
  intros Hitem.
  pose proof (elem_of_todayTasks env l (item, index)) as Ht.
  pose proof (elem_of_futureTasks env l (item, index)) as Hf.
  pose proof (elem_of_completedTasks env l (item, index)) as Hc.
  cbn [fst snd] in Ht, Hf, Hc.
  destruct (kind env (today_midnight env) item);
    (split; [|split]); rewrite ?Ht, ?Hf, ?Hc; intuition congruence.
Qed.

Lemma kind_completed env today item :
  completed item = true → kind env today item = Completed.
Proof. intros H. unfold kind. rewrite H. reflexivity. Qed.

Lemma kind_undated env today item :
  completed item = false → date item = None ∨ date item = Some "" →
  kind env today item = Future.
Proof.
  intros Hc Hd. unfold kind, itemDate. rewrite Hc.
  destruct Hd as [-> | ->]; reflexivity.
Qed.

Lemma kind_Today env today item :
  kind env today item = Today →
  completed item = false
  ∧ ∃ s t u, date item = Some s ∧ s ≠ ""
      ∧ JSDate.parse env s = Some t
      ∧ setHours0 env (Some t) = Some u ∧ today = Some u.
Proof.
  unfold kind, itemDate. destruct (completed item); [discriminate|].
  destruct (date item) as [[|c s]|]; [discriminate| |discriminate].
  destruct (JSDate.parse env (String c s)) as [t|] eqn:Ep; [|discriminate].
  destruct (setHours0 env (Some t)) as [u|] eqn:Eu; [|discriminate].
  destruct today as [v|]; [|discriminate]. cbn.
  destruct (Z.eqb_spec u v); [|discriminate]. intros _.
  split; [reflexivity|]. exists (String c s), t, u. subst v.
  split; [reflexivity|]. split; [discriminate|]. auto.
Qed.

(** Property X22.  An open task whose date is missing or empty is put
    in [futureTasks] and in neither of the other arrays.  What is put in
    [todayTasks] is open, has a date that is present, not empty and
    parses, and that date set to local midnight is the same instant as
    the current time set to local midnight (which, west of UTC, is not
    the midnight of the day the date names); every other open task is
    in [futureTasks]. *)
Theorem undated_tasks_are_future env (l : list Task) :
  (∀ index item,
     l !! index = Some item → completed item = false →
     date item = None ∨ date item = Some "" →
     ((item, index) ∈ futureTasks (buckets env l))
     ∧ ((item, index) ∉ todayTasks (buckets env l))
     ∧ ((item, index) ∉ completedTasks (buckets env l)))
  ∧ (∀ e, e ∈ todayTasks (buckets env l) →
       completed e.1 = false
       ∧ ∃ s t u, date e.1 = Some s ∧ s ≠ ""
           ∧ JSDate.parse env s = Some t
           ∧ setHours0 env (Some t) = Some u
           ∧ setHours0 env (Some (now env)) = Some u)
  ∧ (∀ index item,
       l !! index = Some item → completed item = false →
       (item, index) ∉ todayTasks (buckets env l) →
       (item, index) ∈ futureTasks (buckets env l)).
Proof.
  split; [|split].
  - intros index item Hitem Hc Hd.
    pose proof (one_bucket_each env l index item Hitem) as H.
    rewrite (kind_undated env _ item Hc Hd) in H. tauto.
  - intros e [_ Hk]%elem_of_todayTasks.
    exact (kind_Today env _ _ Hk).
  - intros index item Hitem Hc Hnot.
    pose proof (one_bucket_each env l index item Hitem) as H.
    unfold kind in *. rewrite Hc in H.
    destruct (itemDate env item) as [d|]; [|tauto].
    destruct (same_time d (today_midnight env)); tauto.
Qed.

Lemma undated_tasks_are_future_witness :
  let l := [task "milk" "2024-01-10" false;
            {| name := "eggs"; date := None; priority := "low"; completed := false |};
            {| name := "tea"; date := Some ""; priority := "low"; completed := false |}] in
  let eggs := {| name := "eggs"; date := None; priority := "low";
                 completed := false |} in
  let tea := {| name := "tea"; date := Some ""; priority := "low";
                completed := false |} in
  (((eggs, 1%nat) ∈ futureTasks (buckets env_utc l))
   ∧ ((eggs, 1%nat) ∉ todayTasks (buckets env_utc l))
   ∧ ((eggs, 1%nat) ∉ completedTasks (buckets env_utc l)))
  ∧ (((tea, 2%nat) ∈ futureTasks (buckets env_utc l))
     ∧ ((tea, 2%nat) ∉ todayTasks (buckets env_utc l))
     ∧ ((tea, 2%nat) ∉ completedTasks (buckets env_utc l))).
Proof.
  intros l eggs tea. split.
  - apply (proj1 (undated_tasks_are_future env_utc l) 1%nat);
      [reflexivity | reflexivity | left; reflexivity].
  - apply (proj1 (undated_tasks_are_future env_utc l) 2%nat);
      [reflexivity | reflexivity | right; reflexivity].
Defined.

(** Claim C10, at an input where the script departs from it.  In a
    browser five hours behind UTC, at noon of 2024-01-10 local time, the
    open task without a date is put in [futureTasks], as the claim has
    it; but [todayTasks] takes the open task dated 2024-01-11, whose
    date parses and is not the current date. *)
Theorem today_takes_a_task_of_another_day :
  let eggs := task "eggs" "2024-01-11" false in
  let tea := {| name := "tea"; date := None; priority := "low";
                completed := false |} in
  local_day env_west (now env_west) = days_from_civil 2024 1 10
  ∧ new_Date env_west (date eggs)
    = Some (days_from_civil 2024 1 11 * msPerDay)
  ∧ buckets env_west [eggs; tea]
    = {| todayTasks := [(eggs, 0%nat)];
         futureTasks := [(tea, 1%nat)];
         completedTasks := [] |}.
Proof.
  intros eggs tea.
  split; [vm_compute; reflexivity|]. split; vm_compute; reflexivity.
Qed.

(** Claim C3, at an input where the script departs from it.  In a
    browser five hours behind UTC, at noon of 2024-01-10 local time, the
    open task dated 2024-01-10 is put in [futureTasks] and rendered
    there, and the open task dated 2024-01-11 in [todayTasks]. *)
Theorem dated_today_west_of_utc :
  local_day env_west (now env_west) = days_from_civil 2024 1 10
  ∧ buckets env_west [task "milk" "2024-01-10" false;
                      task "eggs" "2024-01-11" false]
    = {| todayTasks := [(task "eggs" "2024-01-11" false, 1%nat)];
         futureTasks := [(task "milk" "2024-01-10" false, 0%nat)];
         completedTasks := [] |}
  ∧ ∃ pg,
      renderTodoList env_west
        (page_storing [task "milk" "2024-01-10" false;
                       task "eggs" "2024-01-11" false]) = Normal pg
      ∧ task_name <$> rows_of (todayTasksContainer pg) = ["eggs"]
      ∧ task_name <$> rows_of (futureTasksContainer pg) = ["milk"]
      ∧ completedTasksContainer pg = NoTasks.
Proof.
  split; [vm_compute; reflexivity|]. split; [vm_compute; reflexivity|].
  eexists. split; [vm_compute; reflexivity|].
  split; [reflexivity|]. split; reflexivity.
Qed.

(** ** The order within the arrays *)

Section order.
Context (env : Env).

Lemma by_date_asc_consistent (es : list entry) :
  (∀ e, e ∈ es → is_Some (new_Date env (date e.1))) →
  consistent_on (by_date_asc env) (earlier_or_same env) es.
Proof.
  intros Hvalid. split.
  - intros x y [tx Hx]%Hvalid [ty Hy]%Hvalid.
    unfold comes_after, by_date_asc, earlier_or_same. rewrite Hx, Hy. cbn.
    destruct (Z.ltb_spec 0 (tx - ty)); lia.
  - intros x y z _ _ _. unfold earlier_or_same.
    destruct (new_Date env (date x.1)), (new_Date env (date y.1)),
      (new_Date env (date z.1)); try tauto. lia.
Qed.

Lemma by_date_desc_consistent (es : list entry) :
  (∀ e, e ∈ es → is_Some (new_Date env (date e.1))) →
  consistent_on (by_date_desc env) (flip (earlier_or_same env)) es.
Proof.
  intros Hvalid. split.
  - intros x y [tx Hx]%Hvalid [ty Hy]%Hvalid.
    unfold comes_after, by_date_desc, earlier_or_same, flip. rewrite Hx, Hy. cbn.
    destruct (Z.ltb_spec 0 (ty - tx)); lia.
  - intros x y z _ _ _. unfold earlier_or_same, flip.
    destruct (new_Date env (date x.1)), (new_Date env (date y.1)),
      (new_Date env (date z.1)); try tauto. lia.
Qed.

End order.

(** Claim C4, amended.  [todayTasks] is in ascending order of date;
    [futureTasks] is in ascending order of date when every task in it
    has a date that parses, and [completedTasks] in descending order of
    date when every task in it has a date that parses.  So open tasks
    dated 2024-01-10, 2024-01-05 and 2024-01-20, none of them today, are
    rendered in the order 01-05, 01-10, 01-20, and completed tasks dated
    2024-02-01 and 2024-03-01 with 2024-03-01 first. *)
Theorem buckets_are_sorted :
  (∀ env (l : list Task),
     StronglySorted (earlier_or_same env) (todayTasks (buckets env l))
     ∧ ((∀ e, e ∈ futureTasks (buckets env l) →
           is_Some (new_Date env (date e.1))) →
        StronglySorted (earlier_or_same env) (futureTasks (buckets env l)))
     ∧ ((∀ e, e ∈ completedTasks (buckets env l) →
           is_Some (new_Date env (date e.1))) →
        StronglySorted (flip (earlier_or_same env))
          (completedTasks (buckets env l))))
  ∧ (∃ pg,
       renderTodoList env_new_year
         (page_storing [task "a" "2024-01-10" false;
                        task "b" "2024-01-05" false;
                        task "c" "2024-01-20" false]) = Normal pg
       ∧ todayTasksContainer pg = NoTasks
       ∧ task_date <$> rows_of (futureTasksContainer pg)
         = ["05/01/2024"; "10/01/2024"; "20/01/2024"]
       ∧ data_index <$> rows_of (futureTasksContainer pg)
         = [1; 0; 2]%nat)
  ∧ (∃ pg,
       renderTodoList env_new_year
         (page_storing [task "d" "2024-02-01" true;
                        task "e" "2024-03-01" true]) = Normal pg
       ∧ task_date <$> rows_of (completedTasksContainer pg)
         = ["01/03/2024"; "01/02/2024"]
       ∧ data_index <$> rows_of (completedTasksContainer pg)
         = [1; 0]%nat).
Proof.
  split; [|split].
  - intros env l. split; [|split].
    + pose proof (elem_of_todayTasks env l) as Hin. revert Hin.
      rewrite buckets_eq. cbn [todayTasks]. intros Hin.
      apply Array_sort_sorted, by_date_asc_consistent.
      intros e He. apply (proj2 (elem_of_Array_sort (by_date_asc env) e _)) in He.
      apply Hin in He as [_ Hk].
      apply kind_Today in Hk as (_ & s & t & u & Hd & _ & Hp & _).
      rewrite Hd. cbn [new_Date]. rewrite Hp. eauto.
    + rewrite buckets_eq. cbn [futureTasks]. intros Hvalid.
      apply Array_sort_sorted, by_date_asc_consistent.
      intros e He. apply Hvalid, elem_of_Array_sort, He.
    + rewrite buckets_eq. cbn [completedTasks]. intros Hvalid.
      apply Array_sort_sorted, by_date_desc_consistent.
      intros e He. apply Hvalid, elem_of_Array_sort, He.
  - eexists. split; [vm_compute; reflexivity|].
    split; [reflexivity|]. split; reflexivity.
  - eexists. split; [vm_compute; reflexivity|]. split; reflexivity.
Qed.

Lemma buckets_are_sorted_witness :
  let l := [task "a" "2024-01-10" false; task "b" "2024-01-05" false;
            task "d" "2024-02-01" true; task "c" "2024-01-10" false;
            task "e" "2024-03-01" true] in
  StronglySorted (earlier_or_same env_utc) (todayTasks (buckets env_utc l))
  ∧ StronglySorted (earlier_or_same env_utc) (futureTasks (buckets env_utc l))
  ∧ StronglySorted (flip (earlier_or_same env_utc))
      (completedTasks (buckets env_utc l)).
Proof.
  intros l.
  destruct (proj1 buckets_are_sorted env_utc l) as (Htoday & Hfuture & Hdone).
  split; [exact Htoday|]. split; [apply Hfuture|apply Hdone].
  - assert (Hb : futureTasks (buckets env_utc l)
                 = [(task "b" "2024-01-05" false, 1%nat)])
      by (vm_compute; reflexivity).
    rewrite Hb. intros e ->%list_elem_of_singleton. vm_compute. eauto.
  - assert (Hb : completedTasks (buckets env_utc l)
                 = [(task "e" "2024-03-01" true, 4%nat);
                    (task "d" "2024-02-01" true, 2%nat)])
      by (vm_compute; reflexivity).
    rewrite Hb. intros e He.
    repeat (apply elem_of_cons in He as [-> | He]; [vm_compute; eauto|]).
    apply elem_of_nil in He. destruct He.
Defined.

(** Claim C4 as stated fails when a stored task has no date.  With open
    tasks M dated 2024-02-20, N without a date and X dated 2024-02-10
    stored in this order, all three are in [futureTasks], and they stay
    in the stored order: both comparisons with N give [NaN], and M,
    with the later date, stands before X. *)
Lemma undated_task_keeps_later_date_first :
  let M := task "M" "2024-02-20" false in
  let N := {| name := "N"; date := None; priority := "low";
              completed := false |} in
  let X := task "X" "2024-02-10" false in
  let future := futureTasks (buckets env_utc [M; N; X]) in
  future = [(M, 0%nat); (N, 1%nat); (X, 2%nat)]
  ∧ by_date_asc env_utc (M, 0%nat) (N, 1%nat) = None
  ∧ by_date_asc env_utc (N, 1%nat) (X, 2%nat) = None
  ∧ (∃ m x, new_Date env_utc (date M) = Some m
       ∧ new_Date env_utc (date X) = Some x ∧ x < m)
  ∧ before (M, 0%nat) (X, 2%nat) future
  ∧ ¬ StronglySorted (earlier_or_same env_utc) future.
Proof.
  intros M N X future.
  assert (Hf : future = [(M, 0%nat); (N, 1%nat); (X, 2%nat)])
    by (vm_compute; reflexivity).
  split; [exact Hf|]. split; [vm_compute; reflexivity|].
  split; [vm_compute; reflexivity|]. split; [|split].
  - exists (days_from_civil 2024 2 20 * msPerDay),
      (days_from_civil 2024 2 10 * msPerDay).
    split; [vm_compute; reflexivity|]. split; [vm_compute; reflexivity|].
    vm_compute. reflexivity.
  - rewrite Hf. unfold before.
    apply sublist_skip, sublist_cons, sublist_skip. constructor.
  - rewrite Hf. intros Hs. apply StronglySorted_inv in Hs as [_ Hall].
    apply Forall_inv_tail, Forall_inv in Hall.
    vm_compute in Hall. apply Hall. reflexivity.
Qed.

(** ** The theorems at sample pages *)

Lemma mutations_change_only_their_target_witness :
  let l := [task "milk" "2024-01-10" false; task "eggs" "2024-01-12" true] in
  let pg := page_with_form "tea" "2024-01-11" "high" l in
  (∃ pg' l', addItem env_utc pg = Normal pg'
     ∧ loadTodoList (localStorage pg') = Normal l'
     ∧ length l' = S (length l)
     ∧ ∀ j, (j < length l)%nat → l' !! j = l !! j)
  ∧ (∃ pg' l', deleteItem env_utc (Some 0) pg = Normal pg'
       ∧ loadTodoList (localStorage pg') = Normal l'
       ∧ S (length l') = length l
       ∧ (∀ j, (j < Z.to_nat 0)%nat → l' !! j = l !! j)
       ∧ (∀ j, (Z.to_nat 0 ≤ j)%nat → l' !! j = l !! S j))
  ∧ (∃ pg' l' item, toggleComplete env_utc (Some 1) pg = Normal pg'
       ∧ loadTodoList (localStorage pg') = Normal l'
       ∧ length l' = length l
       ∧ l !! Z.to_nat 1 = Some item
       ∧ l' !! Z.to_nat 1 = Some (toggled item)
       ∧ (∀ j, j ≠ Z.to_nat 1 → l' !! j = l !! j)).
Proof.
  intros l pg.
  assert (Hl : loadTodoList (localStorage pg) = Normal l)
    by (vm_compute; reflexivity).
  destruct (mutations_change_only_their_target env_utc pg l Hl)
    as (Hadd & Hdel & Htog).
  split; [|split].
  - apply Hadd. repeat apply conj; discriminate.
  - apply Hdel. cbn; lia.
  - apply Htog. cbn; lia.
Defined.

Lemma deleteItem_renumbers_witness :
  let l := [task "milk" "2024-01-10" false; task "eggs" "2024-01-12" true;
            task "tea" "2024-01-09" false] in
  ∃ pg' l',
    deleteItem env_utc (Some 1) (page_storing l) = Normal pg'
    ∧ loadTodoList (localStorage pg') = Normal l'
    ∧ l' = take (Z.to_nat 1) l ++ drop (S (Z.to_nat 1)) l
    ∧ Z.of_nat (length l') = Z.of_nat (length l) - 1
    ∧ (∀ j, (j < Z.to_nat 1)%nat → l' !! j = l !! j)
    ∧ (∀ j, (Z.to_nat 1 ≤ j)%nat → l' !! j = l !! S j)
    ∧ data_index <$> all_rows pg' ≡ₚ seq 0 (length l')
    ∧ (∀ row, row ∈ all_rows pg' →
         ∃ item, l' !! data_index row = Some item
           ∧ task_name row = name item
           ∧ ordinal row = (data_index row + 1)%nat).
Proof.
  intros l. apply (deleteItem_renumbers env_utc (page_storing l) l 1).
  - vm_compute; reflexivity.
  - cbn; lia.
Defined.

(* ================================================================= *)
(** * Further properties of the script *)

(** ** formatTaskDate *)

Lemma split_dash_free s : dash_free s = true → split "-" s = [s].
Proof.
  induction s as [|c s IH]; [reflexivity|]. cbn [dash_free split].
  intros [Hc Hs]%andb_true_iff. apply negb_true_iff in Hc. rewrite Hc.
  rewrite (IH Hs). reflexivity.
Qed.

Lemma split_dash a b :
  dash_free a = true → split "-" (a +:+ String "-" b) = a :: split "-" b.
Proof.
  induction a as [|c a IH]; [reflexivity|]. cbn [dash_free].
  intros [Hc Ha]%andb_true_iff. apply negb_true_iff in Hc.
  change (String c a +:+ String "-" b) with (String c (a +:+ String "-" b)).
  cbn [split]. rewrite Hc, (IH Ha). reflexivity.
Qed.

Lemma append_dash_not_empty a b : a +:+ String "-" b ≠ "".
Proof. destruct a; discriminate. Qed.

Lemma formatTaskDate_not_empty s :
  s ≠ "" →
  formatTaskDate (Some s) =
  default "undefined" (split "-" s !! 2%nat) +:+ "/"
  +:+ default "undefined" (split "-" s !! 1%nat) +:+ "/"
  +:+ default "undefined" (split "-" s !! 0%nat).
Proof. destruct s; [congruence|reflexivity]. Qed.

(** Property X1.  A date string of three dash-separated parts
    [y-m-d] is shown as [d/m/y], whatever the parts hold; a fourth part
    and what follows it are dropped. *)
Theorem formatTaskDate_three_parts (y m d : string) :
  dash_free y = true → dash_free m = true → dash_free d = true →
  formatTaskDate (Some (y +:+ String "-" (m +:+ String "-" d)))
  = d +:+ String "/" (m +:+ String "/" y)
  ∧ ∀ more,
      formatTaskDate
        (Some (y +:+ String "-" (m +:+ String "-" (d +:+ String "-" more))))
      = d +:+ String "/" (m +:+ String "/" y).
Proof.
  intros Hy Hm Hd. split; [|intros more];
    rewrite formatTaskDate_not_empty by apply append_dash_not_empty;
    rewrite (split_dash y _ Hy), (split_dash m _ Hm).
  - rewrite (split_dash_free d Hd). reflexivity.
  - rewrite (split_dash d _ Hd). reflexivity.
Qed.

Lemma formatTaskDate_three_parts_witness :
  formatTaskDate (Some ("2024" +:+ String "-" ("01" +:+ String "-" "10")))
  = "10" +:+ String "/" ("01" +:+ String "/" "2024")
  ∧ ∀ more,
      formatTaskDate
        (Some ("2024" +:+ String "-" ("01" +:+ String "-" ("10" +:+ String "-" more))))
      = "10" +:+ String "/" ("01" +:+ String "/" "2024").
Proof.
  apply (formatTaskDate_three_parts "2024" "01" "10"); reflexivity.
Defined.

(** Property X2.  A date string with fewer than three parts is shown
    with the text undefined in the place of each missing part: one part
    [y] gives undefined/undefined/y, two parts [y-m] give undefined/m/y;
    a missing or empty date is shown as the empty text. *)
Theorem formatTaskDate_missing_parts (y m : string) :
  dash_free y = true → dash_free m = true →
  (y ≠ "" → formatTaskDate (Some y) = "undefined/undefined/" +:+ y)
  ∧ formatTaskDate (Some (y +:+ String "-" m))
    = "undefined/" +:+ m +:+ String "/" y
  ∧ formatTaskDate None = "" ∧ formatTaskDate (Some "") = "".
Proof.
  intros Hy Hm. split; [|split; [|split; reflexivity]].
  - intros Hne. rewrite (formatTaskDate_not_empty y Hne), (split_dash_free y Hy).
    reflexivity.
  - rewrite formatTaskDate_not_empty by apply append_dash_not_empty.
    rewrite (split_dash y _ Hy), (split_dash_free m Hm). reflexivity.
Qed.

Lemma formatTaskDate_missing_parts_witness :
  ("2024" ≠ "" → formatTaskDate (Some "2024") = "undefined/undefined/" +:+ "2024")
  ∧ formatTaskDate (Some ("2024" +:+ String "-" "01"))
    = "undefined/" +:+ "01" +:+ String "/" "2024"
  ∧ formatTaskDate None = "" ∧ formatTaskDate (Some "") = "".
Proof.
  apply (formatTaskDate_missing_parts "2024" "01"); reflexivity.
Defined.

(** ** What renderTodoList puts on the page *)

Lemma kind_not_completed env today item :
  kind env today item ≠ Completed → completed item = false.
Proof. unfold kind. destruct (completed item); [congruence|reflexivity]. Qed.

Lemma kind_Completed_inv env today item :
  kind env today item = Completed → completed item = true.
Proof.
  unfold kind. destruct (completed item); [reflexivity|].
  destruct (itemDate env item) as [d|]; [|discriminate].
  destruct (same_time d today); discriminate.
Qed.

Lemma all_rows_shows env l pg :
  shows env l pg → all_rows pg = all_rows (show pg (buckets env l)).
Proof.
  intros (Ht & Hf & Hc). unfold all_rows, show.
  cbn [todayTasksContainer futureTasksContainer completedTasksContainer].
  rewrite Ht, Hf, Hc. reflexivity.
Qed.

Lemma shows_show env l pg : shows env l (show pg (buckets env l)).
Proof. repeat split. Qed.

(** The row that [renderTodoList] makes for the item at [index]. *)
Lemma row_of_item env pg (l : list Task) row :
  row ∈ all_rows (show pg (buckets env l)) →
  ∃ item, l !! data_index row = Some item
    ∧ row = {| data_index := data_index row;
               ordinal := data_index row + 1;
               task_name := name item;
               task_date := formatTaskDate (date item);
               priority_tag := priority item;
               completed_task := completed item;
               toggle_button := negb (completed item);
               delete_button := true |}.
Proof.
  rewrite all_rows_show, !elem_of_app, !list_elem_of_fmap.
  intros [(e & -> & He) | [(e & -> & He) | (e & -> & He)]].
  - apply elem_of_todayTasks in He as [He Hk]. destruct e as [item index].
    exists item. split; [exact He|]. cbn [fst snd] in *.
    unfold render_row. cbn [data_index].
    rewrite (kind_not_completed env (today_midnight env) item)
      by (rewrite Hk; discriminate).
    reflexivity.
  - apply elem_of_futureTasks in He as [He Hk]. destruct e as [item index].
    exists item. split; [exact He|]. cbn [fst snd] in *.
    unfold render_row. cbn [data_index].
    rewrite (kind_not_completed env (today_midnight env) item)
      by (rewrite Hk; discriminate).
    reflexivity.
  - apply elem_of_completedTasks in He as [He Hk]. destruct e as [item index].
    exists item. split; [exact He|]. cbn [fst snd] in *.
    unfold render_row. cbn [data_index].
    rewrite (kind_Completed_inv env _ item Hk). reflexivity.
Qed.



Lemma render_section_NoTasks c (b : list entry) :
  render_section c b = NoTasks ↔ b = [].
Proof. destruct b; cbn; split; congruence. Qed.

Lemma nil_iff_no_entry (b : list entry) : b = [] ↔ ∀ e, e ∉ b.
Proof.
  split.
  - intros -> e. apply not_elem_of_nil.
  - intros H. destruct b as [|e b]; [reflexivity|].
    exfalso. apply (H e). left.
Qed.

Lemma no_entry_of_kind env (l : list Task) k :
  (∀ item index, l !! index = Some item →
     kind env (today_midnight env) item ≠ k)
  ↔ Forall (fun item => kind env (today_midnight env) item ≠ k) l.
Proof.
  rewrite Forall_forall. split.
  - intros H item [index Hi]%list_elem_of_lookup. exact (H item index Hi).
  - intros H item index Hi. apply H. apply list_elem_of_lookup. eauto.
Qed.

(** Property X4.  After [renderTodoList] a section holds the "no tasks"
    placeholder exactly when no stored task belongs to it, and rows
    otherwise; so with nothing stored all three sections hold the
    placeholder, and the completed section holds it exactly when no
    stored task is completed. *)
Theorem placeholder_iff_section_empty env pg (l : list Task) :
  loadTodoList (localStorage pg) = Normal l →
  ∃ pg', renderTodoList env pg = Normal pg'
    ∧ (todayTasksContainer pg' = NoTasks ↔
       Forall (fun item => kind env (today_midnight env) item ≠ Today) l)
    ∧ (futureTasksContainer pg' = NoTasks ↔
       Forall (fun item => kind env (today_midnight env) item ≠ Future) l)
    ∧ (completedTasksContainer pg' = NoTasks ↔
       Forall (fun item => completed item = false) l)
    ∧ todayTasksContainer pg' ≠ Blank ∧ futureTasksContainer pg' ≠ Blank
    ∧ completedTasksContainer pg' ≠ Blank
    ∧ (l = [] → todayTasksContainer pg' = NoTasks
                ∧ futureTasksContainer pg' = NoTasks
                ∧ completedTasksContainer pg' = NoTasks).
Proof.
  intros Hl. exists (show pg (buckets env l)).
  split; [exact (renderTodoList_loaded env pg l Hl)|].
  cbn [show todayTasksContainer futureTasksContainer completedTasksContainer].
  split; [|split; [|split]].
  - rewrite render_section_NoTasks, nil_iff_no_entry, <- no_entry_of_kind.
    split.
    + intros H item index Hi Hk. apply (H (item, index)).
      apply elem_of_todayTasks. auto.
    + intros H [item index] [Hi Hk]%elem_of_todayTasks. exact (H item index Hi Hk).
  - rewrite render_section_NoTasks, nil_iff_no_entry, <- no_entry_of_kind.
    split.
    + intros H item index Hi Hk. apply (H (item, index)).
      apply elem_of_futureTasks. auto.
    + intros H [item index] [Hi Hk]%elem_of_futureTasks. exact (H item index Hi Hk).
  - rewrite render_section_NoTasks, nil_iff_no_entry, Forall_forall. split.
    + intros H item [index Hi]%list_elem_of_lookup.
      destruct (completed item) eqn:Hc; [|reflexivity].
      exfalso. apply (H (item, index)). apply elem_of_completedTasks.
      split; [exact Hi|]. apply kind_completed, Hc.
    + intros H [item index] [Hi Hk]%elem_of_completedTasks. cbn [fst snd] in *.
      apply kind_Completed_inv in Hk.
      rewrite (H item) in Hk; [discriminate|]. apply list_elem_of_lookup. eauto.
  - split; [|split; [|split]].
    1-3: destruct (buckets env l) as [[|? ?] [|? ?] [|? ?]]; discriminate.
    intros ->. split; [|split]; reflexivity.
Qed.

Lemma placeholder_iff_section_empty_witness :
  let l := [task "milk" "2024-01-10" false] in
  ∃ pg', renderTodoList env_utc (page_storing l) = Normal pg'
    ∧ (todayTasksContainer pg' = NoTasks ↔
       Forall (fun item => kind env_utc (today_midnight env_utc) item ≠ Today) l)
    ∧ (futureTasksContainer pg' = NoTasks ↔
       Forall (fun item => kind env_utc (today_midnight env_utc) item ≠ Future) l)
    ∧ (completedTasksContainer pg' = NoTasks ↔
       Forall (fun item => completed item = false) l)
    ∧ todayTasksContainer pg' ≠ Blank ∧ futureTasksContainer pg' ≠ Blank
    ∧ completedTasksContainer pg' ≠ Blank
    ∧ (l = [] → todayTasksContainer pg' = NoTasks
                ∧ futureTasksContainer pg' = NoTasks
                ∧ completedTasksContainer pg' = NoTasks).
Proof.
  intros l. apply (placeholder_iff_section_empty env_utc (page_storing l) l).
  vm_compute; reflexivity.
Defined.

(** ** Storage that does not parse *)

Lemma loadTodoList_throws (ls : gmap string string) text :
  ls !! "todoList" = Some text → text ≠ "" →
  JSON.parse text = Throw SyntaxError →
  loadTodoList ls = Throw SyntaxError.
Proof.
  intros Hls Hne Hp. rewrite (loadTodoList_text _ _ Hls Hne), Hp. reflexivity.
Qed.

(** Property X5.  While the stored text is not empty and is not JSON,
    [renderTodoList], [deleteItem] and [toggleComplete] (at any index)
    and [addItem] with a filled-in form all end in the [SyntaxError] of
    [loadTodoList]; none of them gets as far as writing the storage.
    Only [addItem] with an incomplete form still returns, with its
    alert. *)
Theorem malformed_storage_blocks env pg text (index : option Z) :
  localStorage pg !! "todoList" = Some text → text ≠ "" →
  JSON.parse text = Throw SyntaxError →
  renderTodoList env pg = Throw SyntaxError
  ∧ deleteItem env index pg = Throw SyntaxError
  ∧ toggleComplete env index pg = Throw SyntaxError
  ∧ (trim (itemNameInput pg) ≠ "" ∧ itemDeadlineInput pg ≠ ""
     ∧ itemPrioritySelect pg ≠ "" →
     addItem env pg = Throw SyntaxError)
  ∧ (trim (itemNameInput pg) = "" ∨ itemDeadlineInput pg = ""
     ∨ itemPrioritySelect pg = "" →
     ∃ pg', addItem env pg = Normal pg'
       ∧ localStorage pg' = localStorage pg
       ∧ alerts pg' = alerts pg ++ [validation_message]).
Proof.
  intros Hls Hne Hp.
  pose proof (loadTodoList_throws _ _ Hls Hne Hp) as Hload.
  unfold renderTodoList, deleteItem, toggleComplete. rewrite Hload.
  split; [reflexivity|]. split; [reflexivity|]. split; [reflexivity|].
  split.
  - intros (Hn & Hd & Hpr). unfold addItem, falsy.
    rewrite !bool_decide_eq_false_2 by assumption. cbn [orb].
    rewrite Hload. reflexivity.
  - intros H. rewrite (addItem_rejected env pg H).
    eexists. split; [reflexivity|]. split; reflexivity.
Qed.

Lemma malformed_storage_blocks_witness :
  let pg := {| itemNameInput := "milk"; itemDeadlineInput := "2024-01-10";
               itemPrioritySelect := "low";
               localStorage := {["todoList" := "[{oops"]}; alerts := [];
               todayTasksContainer := Blank; futureTasksContainer := Blank;
               completedTasksContainer := Blank |} in
  renderTodoList env_utc pg = Throw SyntaxError
  ∧ deleteItem env_utc (Some 0) pg = Throw SyntaxError
  ∧ toggleComplete env_utc (Some 0) pg = Throw SyntaxError
  ∧ (trim (itemNameInput pg) ≠ "" ∧ itemDeadlineInput pg ≠ ""
     ∧ itemPrioritySelect pg ≠ "" →
     addItem env_utc pg = Throw SyntaxError)
  ∧ (trim (itemNameInput pg) = "" ∨ itemDeadlineInput pg = ""
     ∨ itemPrioritySelect pg = "" →
     ∃ pg', addItem env_utc pg = Normal pg'
       ∧ localStorage pg' = localStorage pg
       ∧ alerts pg' = alerts pg ++ [validation_message]).
Proof.
  intros pg. apply (malformed_storage_blocks env_utc pg "[{oops" (Some 0)).
  - vm_compute; reflexivity.
  - discriminate.
  - vm_compute; reflexivity.
Defined.

(** ** One handler at a time *)

Lemma deleteItem_stored env index pg (l : list Task) :
  loadTodoList (localStorage pg) = Normal l →
  deleteItem env index pg =
  if in_range index l then
    Normal (show (with_storage pg (saveTodoList (localStorage pg)
                                     (delete (position index) l)))
                 (buckets env (delete (position index) l)))
  else Normal pg.
Proof.
  intros Hl. unfold deleteItem. rewrite Hl. cbn [mbind completion_bind cbind].
  destruct (in_range index l); [|reflexivity]. apply renderTodoList_saved.
Qed.

Lemma toggleComplete_stored env index pg (l : list Task) :
  loadTodoList (localStorage pg) = Normal l →
  if in_range index l then
    ∃ item, l !! position index = Some item
      ∧ toggleComplete env index pg =
        Normal (show (with_storage pg (saveTodoList (localStorage pg)
                        (<[position index := toggled item]> l)))
                     (buckets env (<[position index := toggled item]> l)))
  else toggleComplete env index pg = Normal pg.
Proof.
  intros Hl. unfold toggleComplete. rewrite Hl. cbn [mbind completion_bind cbind].
  destruct (in_range index l) eqn:Hin; [|reflexivity].
  apply in_range_spec in Hin as (i & -> & Hi). cbn [position].
  destruct (lookup_lt_is_Some_2 l (Z.to_nat i)) as [item Hitem]; [lia|].
  exists item. split; [exact Hitem|]. rewrite Hitem. apply renderTodoList_saved.
Qed.

(** The handlers come back to the caller only after a successful load. *)
Lemma renderTodoList_Normal env pg pg' :
  renderTodoList env pg = Normal pg' →
  ∃ l, loadTodoList (localStorage pg) = Normal l
    ∧ pg' = show pg (buckets env l).
Proof.
  unfold renderTodoList. destruct (loadTodoList (localStorage pg)) as [l| |];
    cbn; [|discriminate..].
  intros [= <-]. eauto.
Qed.

Lemma filled_in_newItem pg :
  trim (itemNameInput pg) ≠ "" → itemDeadlineInput pg ≠ "" →
  itemPrioritySelect pg ≠ "" → filled_in (newItem pg).
Proof. intros Hn Hd Hp. split; [exact Hn|]. split; [eauto|exact Hp]. Qed.

Lemma filled_in_toggled item : filled_in item → filled_in (toggled item).
Proof. intros H. exact H. Qed.

Lemma form_cases pg :
  (trim (itemNameInput pg) = "" ∨ itemDeadlineInput pg = ""
   ∨ itemPrioritySelect pg = "")
  ∨ (trim (itemNameInput pg) ≠ "" ∧ itemDeadlineInput pg ≠ ""
     ∧ itemPrioritySelect pg ≠ "").
Proof.
  destruct (decide (trim (itemNameInput pg) = "")); [auto|].
  destruct (decide (itemDeadlineInput pg = "")); [auto|].
  destruct (decide (itemPrioritySelect pg = "")); auto.
Qed.

(** What one event does to a page whose storage holds [l]: the handler
    returns; either nothing was stored and the sections are as they
    were, or a new list was stored and the sections show it. *)
Lemma handle_stored env ev pg (l : list Task) :
  loadTodoList (localStorage pg) = Normal l →
  ∃ pg' l',
    handle env ev pg = Normal pg'
    ∧ loadTodoList (localStorage pg') = Normal l'
    ∧ ((l' = l ∧ localStorage pg' = localStorage pg
        ∧ todayTasksContainer pg' = todayTasksContainer pg
        ∧ futureTasksContainer pg' = futureTasksContainer pg
        ∧ completedTasksContainer pg' = completedTasksContainer pg)
       ∨ (localStorage pg' = saveTodoList (localStorage pg) l'
          ∧ shows env l' pg'
          ∧ ((l' = l ++ [newItem pg] ∧ filled_in (newItem pg))
             ∨ (∃ i, (i < length l)%nat ∧ l' = delete i l)
             ∨ (∃ i item, l !! i = Some item
                  ∧ l' = <[i := toggled item]> l)))).
Proof.
  intros Hl. destruct ev as [|e]; cbn [handle].
  - destruct (form_cases pg) as [Hbad | (Hn & Hd & Hp)].
    + rewrite (addItem_rejected env pg Hbad). eexists _, l.
      split; [reflexivity|]. split; [exact Hl|]. left.
      cbn. auto 6.
    + unfold addItem, falsy. rewrite !bool_decide_eq_false_2 by assumption.
      cbn [orb]. rewrite Hl. cbn [mbind completion_bind cbind].
      erewrite renderTodoList_loaded
        by (cbn [localStorage]; apply loadTodoList_saveTodoList).
      eexists _, (l ++ [newItem pg]). split; [reflexivity|].
      cbn [localStorage show]. split; [apply loadTodoList_saveTodoList|].
      right. split; [reflexivity|]. split; [apply shows_show|].
      left. split; [reflexivity|]. apply filled_in_newItem; assumption.
  - unfold onClick.
    destruct (action_btn e) as [target|]; [|exists pg, l; auto 10].
    destruct (task_item e) as [attribute|]; [|exists pg, l; auto 10].
    destruct (delete_item target).
    + rewrite (deleteItem_stored env _ pg l Hl).
      destruct (in_range _ l) eqn:Hin; [|exists pg, l; auto 10].
      eexists _, _. split; [reflexivity|]. cbn [localStorage show with_storage].
      split; [apply loadTodoList_saveTodoList|]. right.
      split; [reflexivity|]. split; [apply shows_show|]. right. left.
      apply in_range_spec in Hin as (i & -> & Hi). exists (Z.to_nat i).
      split; [lia|reflexivity].
    + destruct (toggle_complete target); [|exists pg, l; auto 10].
      pose proof (toggleComplete_stored env (parseInt (attribute_text attribute))
                    pg l Hl) as Ht.
      destruct (in_range _ l) eqn:Hin; [|exists pg, l; auto 10].
      destruct Ht as (item & Hitem & ->).
      eexists _, _. split; [reflexivity|]. cbn [localStorage show with_storage].
      split; [apply loadTodoList_saveTodoList|]. right.
      split; [reflexivity|]. split; [apply shows_show|]. right. right.
      eauto.
Qed.

(** ** A whole session *)

Lemma shows_same_containers env (l : list Task) pg pg' :
  todayTasksContainer pg' = todayTasksContainer pg →
  futureTasksContainer pg' = futureTasksContainer pg →
  completedTasksContainer pg' = completedTasksContainer pg →
  shows env l pg → shows env l pg'.
Proof. unfold shows. intros -> -> ->. auto. Qed.

Lemma Forall_filled_in_delete (l : list Task) i :
  Forall filled_in l → Forall filled_in (delete i l).
Proof. apply Forall_delete. Qed.

Lemma handle_all_invariant evs env0 pg (l : list Task) :
  loadTodoList (localStorage pg) = Normal l →
  Forall filled_in l → shows env0 l pg →
  ∃ pg' l' env', handle_all evs pg = Normal pg'
    ∧ loadTodoList (localStorage pg') = Normal l'
    ∧ Forall filled_in l' ∧ shows env' l' pg'.
Proof.
  revert env0 pg l. induction evs as [|[env ev] evs IH]; intros env0 pg l Hl Hf Hs.
  - exists pg, l, env0. auto.
  - cbn [handle_all].
    destruct (handle_stored env ev pg l Hl) as (pg1 & l1 & -> & Hl1 & Hcase).
    cbn [mbind completion_bind cbind].
    destruct Hcase as [(-> & _ & Ht & Hfu & Hc) | (_ & Hs1 & Hcase)].
    + apply (IH env0 pg1 l Hl1 Hf).
      exact (shows_same_containers env0 l pg pg1 Ht Hfu Hc Hs).
    + apply (IH env pg1 l1 Hl1); [|exact Hs1].
      destruct Hcase as [[-> Hnew] | [(i & _ & ->) | (i & item & Hitem & ->)]].
      * apply Forall_app. split; [exact Hf|]. constructor; [exact Hnew|constructor].
      * apply Forall_filled_in_delete, Hf.
      * apply Forall_insert; [exact Hf|].
        apply filled_in_toggled. rewrite Forall_forall in Hf. apply Hf.
        apply list_elem_of_lookup. eauto.
Qed.

(** Property X6.  When the storage holds a list of records whose name,
    date and priority are not empty, the page load and any sequence of
    events after it (add-button presses and clicks anywhere, each at its
    own time) never throw; afterwards the storage still holds a list of
    such records, and the three sections show exactly that list, as last
    rendered. *)
Theorem session_keeps_store_and_page_in_step env evs pg (l : list Task) :
  loadTodoList (localStorage pg) = Normal l →
  Forall filled_in l →
  ∃ pg' l' env', start env evs pg = Normal pg'
    ∧ loadTodoList (localStorage pg') = Normal l'
    ∧ Forall filled_in l' ∧ shows env' l' pg'.
Proof.
  intros Hl Hf. unfold start. rewrite (renderTodoList_loaded env pg l Hl).
  cbn [mbind completion_bind cbind].
  apply (handle_all_invariant evs env _ l); [exact Hl|exact Hf|apply shows_show].
Qed.

Lemma session_keeps_store_and_page_in_step_witness :
  let l := [task "milk" "2024-01-10" false] in
  let row := {| data_index := 0; ordinal := 1; task_name := "milk";
                task_date := "10/01/2024"; priority_tag := "low";
                completed_task := false; toggle_button := true;
                delete_button := true |} in
  let evs := [(env_utc, ClickAt (click_toggle row)); (env_west, ClickAdd);
              (env_west, ClickAt (click_delete row))] in
  ∃ pg' l' env', start env_utc evs (page_with_form " eggs" "2024-01-11" "high" l)
                 = Normal pg'
    ∧ loadTodoList (localStorage pg') = Normal l'
    ∧ Forall filled_in l' ∧ shows env' l' pg'.
Proof.
  intros l row evs.
  apply (session_keeps_store_and_page_in_step env_utc evs
           (page_with_form " eggs" "2024-01-11" "high" l) l).
  - vm_compute; reflexivity.
  - constructor; [|constructor].
    split; [discriminate|]. split; [|discriminate].
    exists "2024-01-10". split; [reflexivity|discriminate].
Defined.

Lemma handle_storage env ev pg pg' :
  handle env ev pg = Normal pg' →
  localStorage pg' = localStorage pg
  ∨ ∃ l', localStorage pg' = saveTodoList (localStorage pg) l'.
Proof.
  destruct (loadTodoList (localStorage pg)) as [l|err|] eqn:Hl.
  - destruct (handle_stored env ev pg l Hl) as (pg1 & l1 & -> & _ & Hcase).
    intros [= <-]. destruct Hcase as [(_ & H & _) | (H & _)]; eauto.
  - destruct ev as [|e]; cbn [handle].
    + destruct (form_cases pg) as [Hbad | (Hn & Hd & Hp)].
      * rewrite (addItem_rejected env pg Hbad). intros [= <-]. left. reflexivity.
      * unfold addItem, falsy. rewrite !bool_decide_eq_false_2 by assumption.
        cbn [orb]. rewrite Hl. discriminate.
    + unfold onClick, deleteItem, toggleComplete. rewrite Hl.
      repeat case_match; try discriminate; intros [= <-]; left; reflexivity.
  - destruct ev as [|e]; cbn [handle].
    + destruct (form_cases pg) as [Hbad | (Hn & Hd & Hp)].
      * rewrite (addItem_rejected env pg Hbad). intros [= <-]. left. reflexivity.
      * unfold addItem, falsy. rewrite !bool_decide_eq_false_2 by assumption.
        cbn [orb]. rewrite Hl. discriminate.
    + unfold onClick, deleteItem, toggleComplete. rewrite Hl.
      repeat case_match; try discriminate; intros [= <-]; left; reflexivity.
Qed.

Lemma handle_all_other_keys evs pg pg' (k : string) :
  k ≠ "todoList" → handle_all evs pg = Normal pg' →
  localStorage pg' !! k = localStorage pg !! k.
Proof.
  intros Hk. revert pg. induction evs as [|[env ev] evs IH]; intros pg.
  - intros [= <-]. reflexivity.
  - cbn [handle_all]. destruct (handle env ev pg) as [pg1| |] eqn:H1;
      cbn; [|discriminate..].
    intros H2. rewrite (IH pg1 H2).
    destruct (handle_storage env ev pg pg1 H1) as [-> | [l' ->]]; [reflexivity|].
    unfold saveTodoList. apply lookup_insert_ne. congruence.
Qed.

(** Property X7.  The script reads and writes one storage key only:
    whatever else the storage holds under other keys is the same after
    the page load and any sequence of events (whenever the session gets
    that far without an exception). *)
Theorem other_keys_are_untouched env evs pg pg' (k : string) :
  k ≠ "todoList" → start env evs pg = Normal pg' →
  localStorage pg' !! k = localStorage pg !! k.
Proof.
  intros Hk. unfold start.
  destruct (renderTodoList env pg) as [pg1| |] eqn:H1; cbn; [|discriminate..].
  intros H2. rewrite (handle_all_other_keys evs pg1 pg' k Hk H2).
  apply renderTodoList_Normal in H1 as (l & _ & ->). reflexivity.
Qed.

Lemma other_keys_are_untouched_witness :
  let pg := {| itemNameInput := "milk"; itemDeadlineInput := "2024-01-10";
               itemPrioritySelect := "low";
               localStorage := {["theme" := "dark"]}; alerts := [];
               todayTasksContainer := Blank; futureTasksContainer := Blank;
               completedTasksContainer := Blank |} in
  ∃ pg', start env_utc [(env_utc, ClickAdd)] pg = Normal pg'
    ∧ localStorage pg' !! "theme" = localStorage pg !! "theme"
    ∧ localStorage pg' !! "theme" = Some "dark".
Proof.
  intros pg. eexists. split; [vm_compute; reflexivity|].
  split.
  - apply (other_keys_are_untouched env_utc [(env_utc, ClickAdd)] pg);
      [discriminate | vm_compute; reflexivity].
  - vm_compute; reflexivity.
Defined.

(** ** What addItem stores *)

Lemma trim_start_no_space s : starts_with_space (trim_start s) = false.
Proof.
  induction s as [|c s IH]; [reflexivity|]. cbn [trim_start].
  destruct (is_js_space c) eqn:Hc; [exact IH|]. cbn. exact Hc.
Qed.

Lemma trim_end_no_space s : ends_with_space (trim_end s) = false.
Proof.
  induction s as [|c s IH]; [reflexivity|]. cbn [trim_end].
  destruct (trim_end s) as [|d r] eqn:Hr.
  - destruct (is_js_space c) eqn:Hc; [reflexivity|]. cbn. exact Hc.
  - exact IH.
Qed.

Lemma trim_end_keeps_start s :
  starts_with_space s = false → starts_with_space (trim_end s) = false.
Proof.
  destruct s as [|c s]; [reflexivity|]. cbn [starts_with_space trim_end].
  intros Hc. destruct (trim_end s); [rewrite Hc|]; cbn; exact Hc.
Qed.

Lemma trim_end_fixed s : ends_with_space s = false → trim_end s = s.
Proof.
  induction s as [|c s IH]; [reflexivity|]. cbn [trim_end].
  destruct s as [|d r].
  - cbn. intros ->. reflexivity.
  - intros H. rewrite (IH H). reflexivity.
Qed.

Lemma trim_start_fixed s : starts_with_space s = false → trim_start s = s.
Proof. destruct s as [|c s]; [reflexivity|]. cbn. intros ->. reflexivity. Qed.

Lemma trim_trim s : trim (trim s) = trim s.
Proof.
  unfold trim.
  rewrite (trim_start_fixed (trim_end (trim_start s)))
    by apply trim_end_keeps_start, trim_start_no_space.
  apply trim_end_fixed, trim_end_no_space.
Qed.

(** Property X8.  The record that an accepted [addItem] appends has a
    name that is not empty and neither begins nor ends with white space
    (trimming it again changes nothing), a date and a priority that are
    not empty, and is not completed; this holds however the name field
    was padded. *)
Theorem added_record_is_tidy env pg (l : list Task) :
  loadTodoList (localStorage pg) = Normal l →
  trim (itemNameInput pg) ≠ "" → itemDeadlineInput pg ≠ "" →
  itemPrioritySelect pg ≠ "" →
  ∃ pg' r, addItem env pg = Normal pg'
    ∧ loadTodoList (localStorage pg') = Normal (l ++ [r])
    ∧ filled_in r
    ∧ starts_with_space (name r) = false
    ∧ ends_with_space (name r) = false
    ∧ trim (name r) = name r
    ∧ completed r = false.
Proof.
  intros Hl Hn Hd Hp.
  destruct (addItem_accepted env pg l Hn Hd Hp Hl) as (pg' & Ha & Hl' & _).
  exists pg', (newItem pg). split; [exact Ha|]. split; [exact Hl'|].
  split; [apply filled_in_newItem; assumption|]. cbn [newItem name completed].
  split; [apply trim_end_keeps_start, trim_start_no_space|].
  split; [apply trim_end_no_space|]. split; [apply trim_trim|reflexivity].
Qed.

Lemma added_record_is_tidy_witness :
  ∃ pg' r, addItem env_utc (page_with_form "  buy milk  " "2024-01-10" "low" [])
           = Normal pg'
    ∧ loadTodoList (localStorage pg') = Normal ([] ++ [r])
    ∧ filled_in r
    ∧ starts_with_space (name r) = false
    ∧ ends_with_space (name r) = false
    ∧ trim (name r) = name r
    ∧ completed r = false.
Proof.
  apply (added_record_is_tidy env_utc
           (page_with_form "  buy milk  " "2024-01-10" "low" []) []).
  - vm_compute; reflexivity.
  - discriminate.
  - discriminate.
  - discriminate.
Defined.

(** ** Operations one after another *)

(** Property X9.  Deleting at the last index right after an accepted
    [addItem] takes the new record away again: the stored sequence is
    the one from before the two operations. *)
Theorem add_then_delete_last env1 env2 pg (l : list Task) :
  loadTodoList (localStorage pg) = Normal l →
  trim (itemNameInput pg) ≠ "" → itemDeadlineInput pg ≠ "" →
  itemPrioritySelect pg ≠ "" →
  ∃ pg1 pg2, addItem env1 pg = Normal pg1
    ∧ deleteItem env2 (Some (Z.of_nat (length l))) pg1 = Normal pg2
    ∧ loadTodoList (localStorage pg2) = Normal l.
Proof.
  intros Hl Hn Hd Hp.
  destruct (addItem_accepted env1 pg l Hn Hd Hp Hl) as (pg1 & Ha & Hl1 & _).
  exists pg1. eexists. split; [exact Ha|].
  split.
  - apply (deleteItem_in_range env2 pg1 _ _ Hl1).
    rewrite length_app. cbn [length]. lia.
  - cbn [localStorage show with_storage]. rewrite loadTodoList_saveTodoList.
    rewrite Nat2Z.id.
    pose proof (delete_middle l [] (newItem pg)) as Hdel.
    rewrite app_nil_r in Hdel. rewrite Hdel. reflexivity.
Qed.

Lemma add_then_delete_last_witness :
  let l := [task "milk" "2024-01-10" false] in
  ∃ pg1 pg2, addItem env_utc (page_with_form "eggs" "2024-01-11" "high" l)
             = Normal pg1
    ∧ deleteItem env_west (Some (Z.of_nat (length l))) pg1 = Normal pg2
    ∧ loadTodoList (localStorage pg2) = Normal l.
Proof.
  intros l.
  apply (add_then_delete_last env_utc env_west
           (page_with_form "eggs" "2024-01-11" "high" l) l).
  - vm_compute; reflexivity.
  - discriminate.
  - discriminate.
  - discriminate.
Defined.

(** Property X10.  Indices are positions, so they go stale: after
    deleting at [i], deleting at an index [j] not before [i] removes the
    record that stood at [j + 1] in the original sequence.  What is left
    are the original records without those at [i] and [j + 1], in
    order. *)
Theorem delete_twice_shifts env1 env2 pg (l : list Task) (i j : Z) :
  loadTodoList (localStorage pg) = Normal l →
  0 ≤ i ≤ j → j + 1 < Z.of_nat (length l) →
  ∃ pg1 pg2 l2,
    deleteItem env1 (Some i) pg = Normal pg1
    ∧ deleteItem env2 (Some j) pg1 = Normal pg2
    ∧ loadTodoList (localStorage pg2) = Normal l2
    ∧ (length l2 + 2 = length l)%nat
    ∧ (∀ k, (k < Z.to_nat i)%nat → l2 !! k = l !! k)
    ∧ (∀ k, (Z.to_nat i ≤ k < Z.to_nat j)%nat → l2 !! k = l !! S k)
    ∧ (∀ k, (Z.to_nat j ≤ k)%nat → l2 !! k = l !! S (S k)).
Proof.
  intros Hl Hij Hj.
  assert (Hlen1 : (length (delete (Z.to_nat i) l) + 1 = length l)%nat).
  { destruct (lookup_lt_is_Some_2 l (Z.to_nat i)) as [x Hx]; [lia|].
    pose proof (length_delete l (Z.to_nat i) (ex_intro _ x Hx)). lia. }
  assert (Hlen2 : (length (delete (Z.to_nat j) (delete (Z.to_nat i) l)) + 2
                   = length l)%nat).
  { destruct (lookup_lt_is_Some_2 (delete (Z.to_nat i) l) (Z.to_nat j))
      as [x Hx]; [lia|].
    pose proof (length_delete _ (Z.to_nat j) (ex_intro _ x Hx)). lia. }
  eexists _, _, (delete (Z.to_nat j) (delete (Z.to_nat i) l)).
  split; [apply (deleteItem_in_range env1 pg l i Hl); lia|].
  split.
  { apply (deleteItem_in_range env2 _ (delete (Z.to_nat i) l) j).
    - cbn [localStorage show with_storage]. apply loadTodoList_saveTodoList.
    - lia. }
  split; [cbn [localStorage show with_storage]; apply loadTodoList_saveTodoList|].
  split; [exact Hlen2|]. split; [|split]; intros k Hk.
  - rewrite list_lookup_delete_lt by lia. apply list_lookup_delete_lt. lia.
  - rewrite list_lookup_delete_lt by lia. apply list_lookup_delete_ge. lia.
  - rewrite list_lookup_delete_ge by lia. apply list_lookup_delete_ge. lia.
Qed.

Lemma delete_twice_shifts_witness :
  let l := [task "a" "2024-01-10" false; task "b" "2024-01-11" false;
            task "c" "2024-01-12" false; task "d" "2024-01-13" false] in
  ∃ pg1 pg2 l2,
    deleteItem env_utc (Some 1) (page_storing l) = Normal pg1
    ∧ deleteItem env_utc (Some 1) pg1 = Normal pg2
    ∧ loadTodoList (localStorage pg2) = Normal l2
    ∧ (length l2 + 2 = length l)%nat
    ∧ (∀ k, (k < Z.to_nat 1)%nat → l2 !! k = l !! k)
    ∧ (∀ k, (Z.to_nat 1 ≤ k < Z.to_nat 1)%nat → l2 !! k = l !! S k)
    ∧ (∀ k, (Z.to_nat 1 ≤ k)%nat → l2 !! k = l !! S (S k)).
Proof.
  intros l. apply (delete_twice_shifts env_utc env_utc (page_storing l) l 1 1).
  - vm_compute; reflexivity.
  - lia.
  - cbn; lia.
Defined.

(** Property X11.  Toggling at two valid indices gives the same stored
    sequence in either order. *)
Theorem toggles_commute env pg (l : list Task) (i j : Z) :
  loadTodoList (localStorage pg) = Normal l →
  0 ≤ i < Z.of_nat (length l) → 0 ≤ j < Z.of_nat (length l) →
  ∃ pa pb pab pba l',
    toggleComplete env (Some i) pg = Normal pa
    ∧ toggleComplete env (Some j) pa = Normal pab
    ∧ toggleComplete env (Some j) pg = Normal pb
    ∧ toggleComplete env (Some i) pb = Normal pba
    ∧ loadTodoList (localStorage pab) = Normal l'
    ∧ loadTodoList (localStorage pba) = Normal l'.
Proof.
  intros Hl Hi Hj.
  destruct (lookup_lt_is_Some_2 l (Z.to_nat i)) as [x Hx]; [lia|].
  destruct (lookup_lt_is_Some_2 l (Z.to_nat j)) as [y Hy]; [lia|].
  pose proof (toggleComplete_in_range env pg l i x Hl (proj1 Hi) Hx) as Ha.
  pose proof (toggleComplete_in_range env pg l j y Hl (proj1 Hj) Hy) as Hb.
  destruct (decide (Z.to_nat i = Z.to_nat j)) as [Heq | Hne].
  - assert (i = j) by lia. subst j. assert (y = x) by congruence. subst y.
    eexists _, _, _, _, _. split; [exact Ha|].
    assert (Hab : ∀ p, loadTodoList (localStorage p)
                       = Normal (<[Z.to_nat i := toggled x]> l) →
              toggleComplete env (Some i) p
              = Normal (show (with_storage p (saveTodoList (localStorage p)
                           (<[Z.to_nat i := toggled (toggled x)]>
                              (<[Z.to_nat i := toggled x]> l))))
                        (buckets env (<[Z.to_nat i := toggled (toggled x)]>
                              (<[Z.to_nat i := toggled x]> l))))).
    { intros p Hp. apply (toggleComplete_in_range env p _ i _ Hp (proj1 Hi)).
      apply list_lookup_insert_eq. lia. }
    split; [apply Hab; cbn [localStorage show with_storage];
            apply loadTodoList_saveTodoList|].
    split; [exact Ha|].
    split; [apply Hab; cbn [localStorage show with_storage];
            apply loadTodoList_saveTodoList|].
    cbn [localStorage show with_storage]. split; apply loadTodoList_saveTodoList.
  - eexists _, _, _, _, _. split; [exact Ha|].
    split.
    { apply (toggleComplete_in_range env _ (<[Z.to_nat i := toggled x]> l) j y).
      - cbn [localStorage show with_storage]. apply loadTodoList_saveTodoList.
      - lia.
      - rewrite list_lookup_insert_ne by exact Hne. exact Hy. }
    split; [exact Hb|].
    split.
    { apply (toggleComplete_in_range env _ (<[Z.to_nat j := toggled y]> l) i x).
      - cbn [localStorage show with_storage]. apply loadTodoList_saveTodoList.
      - lia.
      - rewrite list_lookup_insert_ne by congruence. exact Hx. }
    cbn [localStorage show with_storage]. rewrite !loadTodoList_saveTodoList.
    split; [reflexivity|].
    rewrite list_insert_insert_ne by exact Hne. reflexivity.
Qed.

Lemma toggles_commute_witness :
  let l := [task "a" "2024-01-10" false; task "b" "2024-01-11" true] in
  ∃ pa pb pab pba l',
    toggleComplete env_utc (Some 0) (page_storing l) = Normal pa
    ∧ toggleComplete env_utc (Some 1) pa = Normal pab
    ∧ toggleComplete env_utc (Some 1) (page_storing l) = Normal pb
    ∧ toggleComplete env_utc (Some 0) pb = Normal pba
    ∧ loadTodoList (localStorage pab) = Normal l'
    ∧ loadTodoList (localStorage pba) = Normal l'.
Proof.
  intros l. apply (toggles_commute env_utc (page_storing l) l 0 1).
  - vm_compute; reflexivity.
  - cbn; lia.
  - cbn; lia.
Defined.

(** ** Ties in the sort *)

Section stable.
Context {A : Type} (cmp : A → A → option Z).

Lemma sort_insert_sublist x l : l `sublist_of` sort_insert cmp x l.
Proof.
  induction l as [|y l IH]; cbn [sort_insert]; [apply sublist_nil_l|].
  destruct (comes_after cmp x y).
  - apply sublist_skip, IH.
  - apply sublist_cons. reflexivity.
Qed.

Lemma sort_insert_before x y l :
  y ∈ l → comes_after cmp x y = false → before x y (sort_insert cmp x l).
Proof.
  intros Hy Hxy. unfold before. induction l as [|z l IH];
    [apply elem_of_nil in Hy; destruct Hy|].
  cbn [sort_insert]. destruct (comes_after cmp x z) eqn:Hxz.
  - apply sublist_cons. apply IH.
    apply elem_of_cons in Hy as [-> | Hy]; [congruence|exact Hy].
  - apply sublist_skip. apply singleton_sublist_l. exact Hy.
Qed.

(** An element is moved behind a later one only when the comparator
    says it comes after it. *)
Lemma Array_sort_stable x y l :
  before x y l → comes_after cmp x y = false →
  before x y (Array_sort cmp l).
Proof.
  unfold before. intros Hb Hxy. induction l as [|h l IH].
  - apply sublist_nil_r in Hb. discriminate.
  - cbn [Array_sort]. apply sublist_cons_r in Hb as [Hb | (l' & [= <- <-] & Hb)].
    + etransitivity; [exact (IH Hb)|apply sort_insert_sublist].
    + apply sort_insert_before; [|exact Hxy].
      apply elem_of_Array_sort. apply singleton_sublist_l. exact Hb.
Qed.
End stable.

Lemma filter_before {A} (P : A → Prop) `{!∀ x, Decision (P x)} x y (l : list A) :
  P x → P y → before x y l → before x y (filter P l).
Proof.
  unfold before. intros Hx Hy Hb.
  assert (Hmono : ∀ l1 l2 : list A,
             l1 `sublist_of` l2 → filter P l1 `sublist_of` filter P l2).
  { induction 1 as [|a l1 l2 _ IH|a l1 l2 _ IH]; [constructor| |].
    - rewrite !filter_cons. case_decide; [apply sublist_skip|]; exact IH.
    - rewrite filter_cons. case_decide; [apply sublist_cons|]; exact IH. }
  apply Hmono in Hb. rewrite !filter_cons, filter_nil in Hb.
  rewrite !decide_True in Hb by assumption. exact Hb.
Qed.

Lemma entries_before (l : list Task) i j ti tj :
  (i < j)%nat → l !! i = Some ti → l !! j = Some tj →
  before (ti, i) (tj, j) (entries l).
Proof.
  intros Hij Hi Hj. unfold before, entries.
  rewrite <- (take_drop_middle l j tj Hj), imap_app, imap_cons.
  assert (Hlen : length (take j l) = j).
  { rewrite length_take. apply lookup_lt_Some in Hj. lia. }
  rewrite Hlen, Nat.add_0_r.
  apply (sublist_app [_] _ [_]).
  - apply singleton_sublist_l. apply elem_of_lookup_imap.
    exists i, ti. split; [reflexivity|]. rewrite lookup_take_lt by lia. exact Hi.
  - apply sublist_skip, sublist_nil_l.
Qed.

Lemma same_date_not_after env (a b : entry) :
  date a.1 = date b.1 →
  comes_after (by_date_asc env) a b = false
  ∧ comes_after (by_date_desc env) a b = false.
Proof.
  intros H. unfold comes_after, by_date_asc, by_date_desc. rewrite H.
  destruct (new_Date env (date b.1)); cbn; [rewrite Z.sub_diag|]; auto.
Qed.

(** Property X12.  When every stored date parses, so that the
    comparators are consistent and the sort is the stable one, two
    stored tasks with the same date that fall in the same section are
    shown there in the order in which they are stored, in the ascending
    sections and in the descending completed section alike.  (With a
    date that does not parse in the section the order is the engine's
    own choice, and is left out here.) *)
Theorem same_date_keeps_stored_order env (l : list Task) i j ti tj :
  dates_parse env l →
  (i < j)%nat → l !! i = Some ti → l !! j = Some tj →
  date ti = date tj →
  ((ti, i) ∈ todayTasks (buckets env l) →
   (tj, j) ∈ todayTasks (buckets env l) →
   before (ti, i) (tj, j) (todayTasks (buckets env l)))
  ∧ ((ti, i) ∈ futureTasks (buckets env l) →
     (tj, j) ∈ futureTasks (buckets env l) →
     before (ti, i) (tj, j) (futureTasks (buckets env l)))
  ∧ ((ti, i) ∈ completedTasks (buckets env l) →
     (tj, j) ∈ completedTasks (buckets env l) →
     before (ti, i) (tj, j) (completedTasks (buckets env l))).
Proof.
  intros _ Hij Hi Hj Hd.
  pose proof (same_date_not_after env (ti, i) (tj, j) Hd) as [Hasc Hdesc].
  pose proof (entries_before l i j ti tj Hij Hi Hj) as Hb.
  split; [|split].
  - intros [_ Ha]%elem_of_todayTasks [_ Hb']%elem_of_todayTasks.
    rewrite buckets_eq. cbn [todayTasks].
    apply Array_sort_stable; [|exact Hasc].
    unfold of_kind. apply filter_before; assumption.
  - intros [_ Ha]%elem_of_futureTasks [_ Hb']%elem_of_futureTasks.
    rewrite buckets_eq. cbn [futureTasks].
    apply Array_sort_stable; [|exact Hasc].
    unfold of_kind. apply filter_before; assumption.
  - intros [_ Ha]%elem_of_completedTasks [_ Hb']%elem_of_completedTasks.
    rewrite buckets_eq. cbn [completedTasks].
    apply Array_sort_stable; [|exact Hdesc].
    unfold of_kind. apply filter_before; assumption.
Qed.

Lemma same_date_keeps_stored_order_witness :
  let l := [task "a" "2024-01-12" false; task "b" "2024-01-11" false;
            task "c" "2024-01-12" false] in
  before (task "a" "2024-01-12" false, 0%nat) (task "c" "2024-01-12" false, 2%nat)
    (futureTasks (buckets env_utc l)).
Proof.
  intros l.
  assert (Hparse : dates_parse env_utc l).
  { intros item Hitem. unfold l in Hitem.
    repeat (apply elem_of_cons in Hitem as [-> | Hitem]; [vm_compute; eauto|]).
    apply elem_of_nil in Hitem. destruct Hitem. }
  apply (proj1 (proj2 (same_date_keeps_stored_order env_utc l 0 2
                         (task "a" "2024-01-12" false)
                         (task "c" "2024-01-12" false)
                         Hparse ltac:(lia) eq_refl eq_refl eq_refl))).
  - apply elem_of_futureTasks. split; vm_compute; reflexivity.
  - apply elem_of_futureTasks. split; vm_compute; reflexivity.
Defined.

(** ** The index on a row and the click that reads it *)

Lemma scan_uint d acc :
  scan_digits 10 (NilEmpty.string_of_uint d) (Some (Z.of_nat acc))
  = Some (Z.of_nat (Nat.of_uint_acc d acc)).
Proof.
  revert acc. induction d as [|d IH|d IH|d IH|d IH|d IH|d IH|d IH|d IH|d IH|d IH];
    intros acc; [reflexivity|..];
    cbn [NilEmpty.string_of_uint scan_digits Nat.of_uint_acc];
    rewrite Nat.tail_mul_spec, <- IH;
    match goal with
    | |- context [radix_digit 10 ?c] =>
        let v := eval vm_compute in (radix_digit 10 c) in
        change (radix_digit 10 c) with v
    end;
    cbn [from_option id]; do 2 f_equal; lia.
Qed.

Lemma scan_from_start d :
  d ≠ Decimal.Nil →
  scan_digits 10 (NilEmpty.string_of_uint d) None
  = Some (Z.of_nat (Nat.of_uint d)).
Proof.
  intros Hd. unfold Nat.of_uint. rewrite <- (scan_uint d 0).
  destruct d; [congruence|reflexivity..].
Qed.

Lemma parseInt_digits s :
  match s with
  | String c r =>
      JSON.is_digit c = true
      ∧ match r with
        | String c' _ => JSON.is_digit c' = true
        | EmptyString => True
        end
  | EmptyString => False
  end →
  parseInt s = scan_digits 10 s None.
Proof.
  destruct s as [|c r]; [tauto|]. intros [Hc Hr].
  assert (Hfirst : ∀ c, JSON.is_digit c = true →
            is_js_space c = false ∧ c ≠ "-"%char ∧ c ≠ "+"%char
            ∧ c ≠ "x"%char ∧ c ≠ "X"%char
            ∧ ∃ v, radix_digit 10 c = Some v ∧ 0 ≤ v).
  { clear. intros c. destruct c as [[] [] [] [] [] [] [] []];
      try discriminate; intros _;
      (split; [reflexivity|]); repeat (split; [discriminate|]);
      eexists; (split; [vm_compute; reflexivity|]); lia. }
  destruct (Hfirst c Hc) as (Hsp & Hm & Hp & _ & _ & v & Hv & Hv0).
  unfold parseInt. cbn [trim_start]. rewrite Hsp.
  assert (Hsign :
    (match String c r with
     | String "-"%char r0 => (-1, r0)
     | String "+"%char r0 => (1, r0)
     | _ => (1, String c r)
     end) = (1, String c r)).
  { clear -Hc. destruct c as [[] [] [] [] [] [] [] []]; try discriminate;
      reflexivity. }
  rewrite Hsign.
  assert (Hprefix :
    (match String c r with
     | String "0"%char (String "x"%char r0)
     | String "0"%char (String "X"%char r0) => (16, r0)
     | _ => (10, String c r)
     end) = (10, String c r)).
  { destruct r as [|c' r'].
    - clear -Hc. destruct c as [[] [] [] [] [] [] [] []]; try discriminate;
        reflexivity.
    - destruct (Hfirst c' Hr) as (_ & _ & _ & Hx & HX & _).
      clear -Hc Hx HX.
      destruct c as [[] [] [] [] [] [] [] []]; try discriminate; try reflexivity.
      destruct c' as [[] [] [] [] [] [] [] []]; try reflexivity; congruence. }
  rewrite Hprefix.
  destruct (scan_digits 10 (String c r) None) as [z|]; [|reflexivity].
  f_equal. lia.
Qed.

Lemma string_of_uint_digits d :
  d ≠ Decimal.Nil →
  match NilEmpty.string_of_uint d with
  | String c r =>
      JSON.is_digit c = true
      ∧ match r with
        | String c' _ => JSON.is_digit c' = true
        | EmptyString => True
        end
  | EmptyString => False
  end.
Proof.
  intros Hd. destruct d as [|d|d|d|d|d|d|d|d|d|d]; [congruence|..];
    cbn [NilEmpty.string_of_uint]; (split; [reflexivity|]);
    destruct d; cbn [NilEmpty.string_of_uint]; auto.
Qed.

Lemma parseInt_string_of_uint d :
  parseInt (NilZero.string_of_uint d) = Some (Z.of_nat (Nat.of_uint d)).
Proof.
  assert (Hcase : d = Decimal.Nil ∨ d ≠ Decimal.Nil)
    by (destruct d; [left; reflexivity|right; discriminate..]).
  destruct Hcase as [-> | Hd]; [reflexivity|].
  replace (NilZero.string_of_uint d) with (NilEmpty.string_of_uint d)
    by (destruct d; [congruence|reflexivity..]).
  rewrite parseInt_digits by apply string_of_uint_digits, Hd.
  apply scan_from_start, Hd.
Qed.

Lemma parseInt_Number_toString (n : nat) :
  parseInt (Number_toString n) = Some (Z.of_nat n).
Proof.
  unfold Number_toString. rewrite parseInt_string_of_uint.
  rewrite DecimalNat.Unsigned.of_to. reflexivity.
Qed.

(** Property X13.  The index that [renderTodoList] writes on a row as
    the [data-index] attribute is read back unchanged by the click
    listener: [parseInt] of the decimal text of an index is that index,
    for every index. *)
Theorem data_index_round_trip (n : nat) :
  parseInt (attribute_text (Some (Number_toString n))) = Some (Z.of_nat n).
Proof. apply parseInt_Number_toString. Qed.

Lemma onClick_click_delete env pg row :
  onClick env (click_delete row) pg
  = deleteItem env (Some (Z.of_nat (data_index row))) pg.
Proof.
  unfold onClick, click_delete, row_attribute.
  cbn [action_btn task_item delete_item attribute_text from_option id].
  rewrite parseInt_Number_toString. reflexivity.
Qed.


(** Property X14.  When the sections show the stored list and the
    stored names, dates and priorities hold no markup (so that every
    row is the template's, and the row closest to a button is the
    button's own), a click on the delete button of a row removes from
    the storage exactly the task which that row shows (the one at the
    row's index), and the sections then show the shortened list; the
    range check never turns such a click into a no-op. *)
Theorem click_delete_removes_that_task env env0 pg (l : list Task) row :
  loadTodoList (localStorage pg) = Normal l →
  Forall plain_task l →
  shows env0 l pg → row ∈ all_rows pg →
  ∃ item pg',
    l !! data_index row = Some item
    ∧ task_name row = name item
    ∧ delete_button row = true
    ∧ onClick env (click_delete row) pg = Normal pg'
    ∧ loadTodoList (localStorage pg') = Normal (delete (data_index row) l)
    ∧ shows env (delete (data_index row) l) pg'.
Proof.
  intros Hl _ Hs Hrow. rewrite (all_rows_shows env0 l pg Hs) in Hrow.
  apply row_of_item in Hrow as (item & Hitem & Hr).
  exists item. eexists. split; [exact Hitem|].
  split; [rewrite Hr; reflexivity|]. split; [rewrite Hr; reflexivity|].
  rewrite onClick_click_delete.
  pose proof (lookup_lt_Some _ _ _ Hitem) as Hlt.
  rewrite (deleteItem_in_range env pg l _ Hl) by lia.
  rewrite Nat2Z.id. split; [reflexivity|].
  split; [cbn [localStorage show with_storage]; apply loadTodoList_saveTodoList|].
  apply shows_show.
Qed.

Lemma click_delete_removes_that_task_witness :
  let l := [task "milk" "2024-01-10" false; task "eggs" "2024-01-12" true] in
  let row := {| data_index := 1; ordinal := 2; task_name := "eggs";
                task_date := "12/01/2024"; priority_tag := "low";
                completed_task := true; toggle_button := false;
                delete_button := true |} in
  ∃ item pg',
    l !! data_index row = Some item
    ∧ task_name row = name item
    ∧ delete_button row = true
    ∧ onClick env_west (click_delete row) (show (page_storing l) (buckets env_utc l))
      = Normal pg'
    ∧ loadTodoList (localStorage pg') = Normal (delete (data_index row) l)
    ∧ shows env_west (delete (data_index row) l) pg'.
Proof.
  intros l row.
  apply (click_delete_removes_that_task env_west env_utc
           (show (page_storing l) (buckets env_utc l)) l row).
  - vm_compute; reflexivity.
  - repeat constructor.
  - apply shows_show.
  - vm_compute. apply list_elem_of_In. right. left. reflexivity.
Defined.



(** ** Which section a task goes to *)

(** Property X16.  The categoriser puts every stored task in exactly
    one of the three arrays and nothing else in them: together they hold
    each (task, index) pair of the stored list once.  A completed task
    is in [completedTasks] whatever its date; a task that is not
    completed is in [todayTasks] or in [futureTasks], never in both. *)
Theorem each_task_in_one_section env (l : list Task) :
  todayTasks (buckets env l) ++ futureTasks (buckets env l)
  ++ completedTasks (buckets env l) ≡ₚ entries l
  ∧ NoDup (todayTasks (buckets env l) ++ futureTasks (buckets env l)
           ++ completedTasks (buckets env l))
  ∧ ∀ index item, l !! index = Some item →
      (completed item = true →
       ((item, index) ∈ completedTasks (buckets env l))
       ∧ ((item, index) ∉ todayTasks (buckets env l))
       ∧ ((item, index) ∉ futureTasks (buckets env l)))
      ∧ (completed item = false →
         ((item, index) ∉ completedTasks (buckets env l))
         ∧ (((item, index) ∈ todayTasks (buckets env l))
            ↔ ((item, index) ∉ futureTasks (buckets env l)))).
Proof.
  split; [apply buckets_partition|].
  split; [rewrite buckets_partition; apply NoDup_entries|].
  intros index item Hitem.
  pose proof (one_bucket_each env l index item Hitem) as H.
  split; intros Hc.
  - rewrite (kind_completed env _ item Hc) in H. tauto.
  - destruct (kind env (today_midnight env) item) eqn:Hk.
    + tauto.
    + tauto.
    + apply kind_Completed_inv in Hk. congruence.
Qed.

Lemma today_midnight_valid env :
  - msPerDay < LocalTZA env < msPerDay →
  Z.abs (now env) ≤ 8640000000000000 - msPerDay →
  is_Some (today_midnight env).
Proof.
  intros Htz Hnow. unfold today_midnight. rewrite setHours0_local_day.
  unfold TimeClip, local_day.
  pose proof (Z.mul_div_le (now env + LocalTZA env) msPerDay ltac:(reflexivity)).
  pose proof (Z.mul_succ_div_gt (now env + LocalTZA env) msPerDay
                ltac:(reflexivity)).
  destruct (Z.leb_spec (Z.abs ((now env + LocalTZA env) / msPerDay * msPerDay
                               - LocalTZA env)) 8640000000000000);
    [eauto|]. unfold msPerDay in *. lia.
Qed.

Section zones.
Context (env : Env) (l : list Task) (index : nat) (item : Task).
Context (s : string) (y m d : Z).
Hypothesis Hnow : Z.abs (now env) ≤ 8640000000000000 - msPerDay.
Hypothesis Hitem : l !! index = Some item.
Hypothesis Hopen : completed item = false.
Hypothesis Hdate : date item = Some s.
Hypothesis Hiso : iso_date s = Some (y, m, d).

(** Property X17.  In a browser on UTC or east of it, an open task with
    an ISO date is in [todayTasks] exactly when its date is the current
    local calendar day, and in [futureTasks] otherwise (past dates
    included). *)
Theorem east_of_utc_today_is_the_calendar_day :
  0 ≤ LocalTZA env < msPerDay →
  (((item, index) ∈ todayTasks (buckets env l))
   ↔ days_from_civil y m d = local_day env (now env))
  ∧ (((item, index) ∈ futureTasks (buckets env l))
     ↔ days_from_civil y m d ≠ local_day env (now env)).
Proof.
  intros Htz.
  assert (Hv : is_Some (today_midnight env))
    by (apply today_midnight_valid; [unfold msPerDay in *; lia|exact Hnow]).
  pose proof (dated_task_east env item s y m d Htz Hv Hopen Hdate Hiso) as Hk.
  rewrite elem_of_todayTasks, elem_of_futureTasks. cbn [fst snd].
  rewrite Hk. case_bool_decide; split; split; try tauto; try congruence;
    intros [_ ?]; congruence.
Qed.

(** Property X18.  In a browser west of UTC the comparison is one day
    off: an open task with an ISO date is in [todayTasks] exactly when
    its date is the day after the current local calendar day; the task
    dated the current local day is in [futureTasks]. *)
Theorem west_of_utc_today_is_the_day_after :
  - msPerDay ≤ LocalTZA env < 0 →
  (((item, index) ∈ todayTasks (buckets env l))
   ↔ days_from_civil y m d = local_day env (now env) + 1)
  ∧ (days_from_civil y m d = local_day env (now env) →
     (item, index) ∈ futureTasks (buckets env l)).
Proof.
  intros Htz.
  assert (Hv : is_Some (today_midnight env)).
  { unfold today_midnight. rewrite setHours0_local_day.
    unfold TimeClip, local_day.
    pose proof (Z.mul_div_le (now env + LocalTZA env) msPerDay ltac:(reflexivity)).
    pose proof (Z.mul_succ_div_gt (now env + LocalTZA env) msPerDay
                  ltac:(reflexivity)).
    destruct (Z.leb_spec (Z.abs ((now env + LocalTZA env) / msPerDay * msPerDay
                                 - LocalTZA env)) 8640000000000000);
      [eauto|]. unfold msPerDay in *. lia. }
  pose proof (dated_task_west env item s y m d Htz Hv Hopen Hdate Hiso) as Hk.
  rewrite elem_of_todayTasks, elem_of_futureTasks. cbn [fst snd].
  rewrite Hk. case_bool_decide; split; try split; try tauto; try congruence;
    try lia; intros; try (exfalso; lia).
  - destruct H0 as [_ ?]. congruence.
Qed.
End zones.

Lemma each_task_in_one_section_witness :
  let l := [task "milk" "2024-01-10" false; task "eggs" "2024-01-12" true] in
  (((task "eggs" "2024-01-12" true, 1%nat) ∈ completedTasks (buckets env_utc l))
   ∧ ((task "eggs" "2024-01-12" true, 1%nat) ∉ todayTasks (buckets env_utc l))
   ∧ ((task "eggs" "2024-01-12" true, 1%nat) ∉ futureTasks (buckets env_utc l)))
  ∧ ((task "milk" "2024-01-10" false, 0%nat) ∉ completedTasks (buckets env_utc l))
  ∧ (((task "milk" "2024-01-10" false, 0%nat) ∈ todayTasks (buckets env_utc l))
     ↔ ((task "milk" "2024-01-10" false, 0%nat) ∉ futureTasks (buckets env_utc l))).
Proof.
  intros l.
  destruct (each_task_in_one_section env_utc l) as (_ & _ & H).
  split.
  - apply (proj1 (H 1%nat (task "eggs" "2024-01-12" true) eq_refl) eq_refl).
  - apply (proj2 (H 0%nat (task "milk" "2024-01-10" false) eq_refl) eq_refl).
Defined.

Lemma east_of_utc_today_is_the_calendar_day_witness :
  let l := [task "milk" "2024-01-10" false; task "eggs" "2024-01-11" false] in
  (((task "milk" "2024-01-10" false, 0%nat) ∈ todayTasks (buckets env_utc l))
   ↔ days_from_civil 2024 1 10 = local_day env_utc (now env_utc))
  ∧ (((task "milk" "2024-01-10" false, 0%nat) ∈ futureTasks (buckets env_utc l))
     ↔ days_from_civil 2024 1 10 ≠ local_day env_utc (now env_utc)).
Proof.
  intros l.
  apply (east_of_utc_today_is_the_calendar_day env_utc l 0
           (task "milk" "2024-01-10" false) "2024-01-10" 2024 1 10).
  - vm_compute. discriminate.
  - reflexivity.
  - reflexivity.
  - reflexivity.
  - reflexivity.
  - vm_compute. split; [discriminate|reflexivity].
Defined.

Lemma west_of_utc_today_is_the_day_after_witness :
  let l := [task "milk" "2024-01-10" false; task "eggs" "2024-01-11" false] in
  (((task "eggs" "2024-01-11" false, 1%nat) ∈ todayTasks (buckets env_west l))
   ↔ days_from_civil 2024 1 11 = local_day env_west (now env_west) + 1)
  ∧ (days_from_civil 2024 1 11 = local_day env_west (now env_west) →
     (task "eggs" "2024-01-11" false, 1%nat) ∈ futureTasks (buckets env_west l)).
Proof.
  intros l.
  apply (west_of_utc_today_is_the_day_after env_west l 1
           (task "eggs" "2024-01-11" false) "2024-01-11" 2024 1 11).
  - vm_compute. discriminate.
  - reflexivity.
  - reflexivity.
  - reflexivity.
  - reflexivity.
  - vm_compute. split; [discriminate|reflexivity].
Defined.

(** Property X19.  What [renderTodoList] shows depends on the clock
    only through the local calendar day: at two times of the same local
    day (same zone, same engine) it renders the same page. *)
Theorem render_depends_on_the_day_only env now' pg :
  local_day env now' = local_day env (now env) →
  renderTodoList (mkEnv now' (LocalTZA env) (legacy_parse env)) pg
  = renderTodoList env pg.
Proof.
  intros Hday. unfold renderTodoList.
  destruct (loadTodoList (localStorage pg)) as [l|err|]; [|reflexivity..].
  cbn [mbind completion_bind cbind].
  rewrite (buckets_time_of_day env now' l Hday). reflexivity.
Qed.

Lemma render_depends_on_the_day_only_witness :
  renderTodoList (mkEnv 1704844800000 (LocalTZA env_utc) (legacy_parse env_utc))
    (page_storing [task "milk" "2024-01-10" false])
  = renderTodoList env_utc (page_storing [task "milk" "2024-01-10" false]).
Proof.
  apply (render_depends_on_the_day_only env_utc 1704844800000).
  vm_compute; reflexivity.
Defined.

(** ** The comparators and the calendar *)

Lemma year_start_step y :
  year_start (y + 1) = year_start y + 365 + (if is_leap (y + 1) then 1 else 0).
Proof.
  unfold year_start, is_leap.
  destruct (Z.eqb_spec ((y + 1) mod 4) 0), (Z.eqb_spec ((y + 1) mod 100) 0),
    (Z.eqb_spec ((y + 1) mod 400) 0); cbn; Z.div_mod_to_equations; lia.
Qed.

Lemma year_start_mono a b : a < b → year_start a + 365 ≤ year_start b.
Proof. intros H. unfold year_start. Z.div_mod_to_equations. lia. Qed.

Lemma days_in_month_bound y m d :
  1 ≤ m ≤ 12 → 1 ≤ d ≤ days_in_month y m →
  d ≤ 31
  ∧ (m = 4 ∨ m = 6 ∨ m = 9 ∨ m = 11 → d ≤ 30)
  ∧ (m = 2 → d ≤ 29 ∧ (d = 29 → is_leap y = true)).
Proof.
  intros Hm Hd. unfold days_in_month in Hd.
  destruct (Z.eqb_spec m 2).
  - destruct (is_leap y); lia.
  - destruct (Z.eqb_spec m 4), (Z.eqb_spec m 6), (Z.eqb_spec m 9),
      (Z.eqb_spec m 11); cbn in Hd; lia.
Qed.

Lemma days_from_civil_split y m d :
  days_from_civil y m d =
  year_start (if m <=? 2 then y - 1 else y)
  + (153 * (if m <=? 2 then m + 9 else m - 3) + 2) / 5 + d - 1 - 719468.
Proof. unfold days_from_civil, year_start. lia. Qed.

(** The day count grows with the calendar date. *)
Lemma days_from_civil_lt y1 m1 d1 y2 m2 d2 :
  1 ≤ m1 ≤ 12 → 1 ≤ d1 ≤ days_in_month y1 m1 →
  1 ≤ m2 ≤ 12 → 1 ≤ d2 ≤ days_in_month y2 m2 →
  cal_before (y1, m1, d1) (y2, m2, d2) →
  days_from_civil y1 m1 d1 < days_from_civil y2 m2 d2.
Proof.
  intros Hm1 Hd1 Hm2 Hd2 Hlt. cbn [cal_before] in Hlt.
  destruct (days_in_month_bound y1 m1 d1 Hm1 Hd1) as (B31 & B30 & BF).
  rewrite !days_from_civil_split.
  assert (Hleap : m1 = 2 → d1 = 29 →
                  year_start y1 = year_start (y1 - 1) + 366).
  { intros -> ->. destruct (BF eq_refl) as [_ L]. specialize (L eq_refl).
    pose proof (year_start_step (y1 - 1)) as S.
    replace (y1 - 1 + 1) with y1 in S by lia. rewrite L in S. lia. }
  assert (Hstep : ∀ a, year_start a + 365 ≤ year_start (a + 1)).
  { intros a. apply year_start_mono. lia. }
  assert (Hmono : ∀ a b, a ≤ b → year_start a ≤ year_start b).
  { intros a b Hab. destruct (Z.eq_dec a b) as [->|]; [lia|].
    pose proof (year_start_mono a b). lia. }
  assert (Hmono2 : ∀ a b, a < b → year_start a + 365 ≤ year_start b)
    by apply year_start_mono.
  destruct (Z.leb_spec m1 2), (Z.leb_spec m2 2).
  all: assert (m1 = 1 ∨ m1 = 2 ∨ m1 = 3 ∨ m1 = 4 ∨ m1 = 5 ∨ m1 = 6 ∨ m1 = 7
               ∨ m1 = 8 ∨ m1 = 9 ∨ m1 = 10 ∨ m1 = 11 ∨ m1 = 12) as Hc by lia.
  all: destruct Hlt as [Hy | [-> Hlt]].
  all: try (pose proof (Hmono2 (y1 - 1) (y2 - 1) ltac:(lia))).
  all: try (pose proof (Hmono2 y1 y2 ltac:(lia))).
  all: try (pose proof (Hmono y1 (y2 - 1) ltac:(lia))).
  all: try (pose proof (Hstep (y1 - 1))).
  all: try (pose proof (Hstep (y2 - 1))).
  all: try (replace (y1 - 1 + 1) with y1 in * by lia).
  all: try (replace (y2 - 1 + 1) with y2 in * by lia).
  all: repeat (destruct Hc as [-> | Hc]); try subst m1; try lia;
       Z.div_mod_to_equations; lia.
Qed.

Lemma iso_date_valid s y m d :
  iso_date s = Some (y, m, d) → 1 ≤ m ≤ 12 ∧ 1 ≤ d ≤ days_in_month y m.
Proof.
  unfold iso_date.
  destruct s as [|c1 [|c2 [|c3 [|c4 [|c5 [|c6 [|c7 [|c8 [|c9 [|c10 [|c11 r]]]]]]]]]]];
    try discriminate.
  all: destruct c5 as [[] [] [] [] [] [] [] []]; try discriminate.
  all: destruct c8 as [[] [] [] [] [] [] [] []]; try discriminate.
  all: destruct (digit c1), (digit c2), (digit c3), (digit c4), (digit c6),
         (digit c7), (digit c9), (digit c10); try discriminate.
  all: cbn [mbind option_bind].
  all: match goal with
       | |- (if ?c then _ else _) = _ → _ => destruct c eqn:Hc; [|discriminate]
       end.
  all: intros [= <- <- <-].
  all: rewrite !andb_true_iff, !Z.leb_le in Hc; lia.
Qed.

Lemma cal_before_total a b : cal_before a b ∨ a = b ∨ cal_before b a.
Proof.
  destruct a as [[y1 m1] d1], b as [[y2 m2] d2]. cbn [cal_before].
  destruct (Z.lt_total y1 y2) as [?|[->|?]]; [auto| |auto].
  destruct (Z.lt_total m1 m2) as [?|[->|?]]; [auto| |auto 6].
  destruct (Z.lt_total d1 d2) as [?|[->|?]]; auto 8.
Qed.

(** Property X20.  For two tasks with ISO dates the ascending
    comparator moves the first behind the second exactly when its date
    is the later calendar date, and the descending comparator exactly
    when it is the earlier one; on the same date neither moves.  The
    order of the sections is the order of the calendar. *)
Theorem comparators_follow_the_calendar env (a b : entry) sa sb ca cb :
  date a.1 = Some sa → iso_date sa = Some ca →
  date b.1 = Some sb → iso_date sb = Some cb →
  (comes_after (by_date_asc env) a b = true ↔ cal_before cb ca)
  ∧ (comes_after (by_date_desc env) a b = true ↔ cal_before ca cb).
Proof.
  intros Ha Hia Hb Hib.
  destruct ca as [[y1 m1] d1], cb as [[y2 m2] d2].
  destruct (iso_date_valid _ _ _ _ Hia) as [Hm1 Hd1].
  destruct (iso_date_valid _ _ _ _ Hib) as [Hm2 Hd2].
  unfold comes_after, by_date_asc, by_date_desc, new_Date, JSDate.parse.
  rewrite Ha, Hb, Hia, Hib. cbn [minus].
  pose proof (days_from_civil_lt y1 m1 d1 y2 m2 d2 Hm1 Hd1 Hm2 Hd2) as H12.
  pose proof (days_from_civil_lt y2 m2 d2 y1 m1 d1 Hm2 Hd2 Hm1 Hd1) as H21.
  rewrite !Z.ltb_lt.
  destruct (cal_before_total (y1, m1, d1) (y2, m2, d2)) as [Hlt | [[= -> -> ->] | Hgt]].
  - specialize (H12 Hlt). split; split; intros; try assumption;
      try (unfold msPerDay in *; lia).
    exfalso. specialize (H21 H). lia.
  - split; split; intros H; try (unfold msPerDay in *; lia);
      cbn [cal_before] in H; lia.
  - specialize (H21 Hgt). split; split; intros; try assumption;
      try (unfold msPerDay in *; lia).
    exfalso. specialize (H12 H). lia.
Qed.

Lemma comparators_follow_the_calendar_witness :
  (comes_after (by_date_asc env_utc) (task "a" "2024-03-01" false, 0%nat)
     (task "b" "2024-02-29" false, 1%nat) = true
   ↔ cal_before (2024, 2, 29) (2024, 3, 1))
  ∧ (comes_after (by_date_desc env_utc) (task "a" "2024-03-01" false, 0%nat)
       (task "b" "2024-02-29" false, 1%nat) = true
     ↔ cal_before (2024, 3, 1) (2024, 2, 29)).
Proof.
  apply (comparators_follow_the_calendar env_utc
           (task "a" "2024-03-01" false, 0%nat)
           (task "b" "2024-02-29" false, 1%nat)
           "2024-03-01" "2024-02-29" (2024, 3, 1) (2024, 2, 29));
    reflexivity.
Defined.

(** ** The new task on the page *)

Lemma addItem_accepted_page env pg (l : list Task) :
  trim (itemNameInput pg) ≠ "" → itemDeadlineInput pg ≠ "" →
  itemPrioritySelect pg ≠ "" →
  loadTodoList (localStorage pg) = Normal l →
  ∃ pg', addItem env pg = Normal pg'
    ∧ shows env (l ++ [newItem pg]) pg'
    ∧ loadTodoList (localStorage pg') = Normal (l ++ [newItem pg]).
Proof.
  intros Hn Hd Hp Hl. unfold addItem, falsy.
  rewrite !bool_decide_eq_false_2 by assumption. cbn [orb].
  rewrite Hl. cbn [mbind completion_bind cbind].
  erewrite renderTodoList_loaded
    by (cbn [localStorage]; apply loadTodoList_saveTodoList).
  eexists. split; [reflexivity|]. split; [apply shows_show|].
  cbn [localStorage show]. apply loadTodoList_saveTodoList.
Qed.

(** Property X21.  After an accepted [addItem], when neither the
    stored texts nor the new name, date and priority hold markup (so
    that every row is the template's), the new task is on the page: one
    row, in the today or the future section and not in the completed
    one, carries the last index of the stored list, the next position
    number, the trimmed name, the formatted date and the priority from
    the form, with a toggle and a delete button. *)
Theorem added_task_is_shown env pg (l : list Task) :
  loadTodoList (localStorage pg) = Normal l →
  trim (itemNameInput pg) ≠ "" → itemDeadlineInput pg ≠ "" →
  itemPrioritySelect pg ≠ "" →
  Forall plain_task (l ++ [newItem pg]) →
  ∃ pg' row,
    addItem env pg = Normal pg'
    ∧ row = {| data_index := length l;
               ordinal := length l + 1;
               task_name := trim (itemNameInput pg);
               task_date := formatTaskDate (Some (itemDeadlineInput pg));
               priority_tag := itemPrioritySelect pg;
               completed_task := false;
               toggle_button := true;
               delete_button := true |}
    ∧ row ∈ rows_of (todayTasksContainer pg') ++ rows_of (futureTasksContainer pg')
    ∧ ∀ row', row' ∈ rows_of (completedTasksContainer pg') →
        data_index row' ≠ length l.
Proof.
  intros Hl Hn Hd Hp _.
  destruct (addItem_accepted_page env pg l Hn Hd Hp Hl)
    as (pg' & Ha & (Ht & Hf & Hc) & Hl').
  exists pg', (render_row false (newItem pg, length l)).
  split; [exact Ha|]. split; [reflexivity|].
  assert (Hnew : (l ++ [newItem pg]) !! length l = Some (newItem pg))
    by apply list_lookup_middle, eq_refl.
  pose proof (one_bucket_each env (l ++ [newItem pg]) (length l) (newItem pg) Hnew)
    as Hone.
  rewrite Ht, Hf, Hc, !rows_of_render_section.
  split.
  - apply elem_of_app.
    destruct (kind env (today_midnight env) (newItem pg)) eqn:Hk.
    + left. apply list_elem_of_fmap. eexists. split; [reflexivity|tauto].
    + right. apply list_elem_of_fmap. eexists. split; [reflexivity|tauto].
    + apply kind_Completed_inv in Hk. discriminate.
  - intros row' (e & -> & He)%list_elem_of_fmap Hidx.
    apply elem_of_completedTasks in He as [He Hk]. destruct e as [item index].
    cbn in Hidx, He, Hk. subst index. rewrite Hnew in He.
    injection He as <-. apply kind_Completed_inv in Hk. discriminate.
Qed.

Lemma added_task_is_shown_witness :
  let l := [task "eggs" "2024-01-12" true] in
  let pg := page_with_form " milk " "2024-01-10" "low" l in
  ∃ pg' row,
    addItem env_utc pg = Normal pg'
    ∧ row = {| data_index := length l;
               ordinal := length l + 1;
               task_name := trim (itemNameInput pg);
               task_date := formatTaskDate (Some (itemDeadlineInput pg));
               priority_tag := itemPrioritySelect pg;
               completed_task := false;
               toggle_button := true;
               delete_button := true |}
    ∧ row ∈ rows_of (todayTasksContainer pg') ++ rows_of (futureTasksContainer pg')
    ∧ ∀ row', row' ∈ rows_of (completedTasksContainer pg') →
        data_index row' ≠ length l.
Proof.
  intros l pg. apply (added_task_is_shown env_utc pg l).
  - vm_compute; reflexivity.
  - discriminate.
  - discriminate.
  - discriminate.
  - vm_compute. repeat constructor.
Defined.
